(** * The node store of the Neos UI: [CR/Nodes/index.js]

    A shallow embedding of the reducer of
    [packages/neos-ui-redux-store/src/CR/Nodes/index.js] and of its
    child index builder [populateChildren], with the properties the
    specification states about them.

    Conventions of the embedding.
    - A plain JS object or an Immutable [Map] keyed by context path is an
      association list in iteration order; keys are unique.  For an
      object this is [Object.keys] order, which is insertion order for
      context paths.  For a [Map] an assignment to an existing key keeps
      its place and a new key goes last, which is how the library
      iterates a map of up to eight entries; a larger map iterates in
      the order of the hashes of its keys, which is not modelled.  The
      statements on which keys an action adds or deletes are therefore
      on membership, not on order.
    - A node record is a Rocq record whose fields are optional, as the
      fields of a JS object are.  The fields have the types of the data
      model: paths, types and uris are strings, [index] is a number,
      [properties] maps names to scalar values (a property that holds
      a list or a map, which a merge would enter, is not modelled).  A
      field that is missing and a field that is [undefined] read the
      same.
    - JS numbers are the doubles that are integers, plus [NaN]: an index
      is an integer, a sum or a difference is rounded to the nearest
      double ([toDouble]), which is exact up to [2^53] in size.
    - A [TypeError] is the [Throw] outcome of the [result] monad.
    - The library calls are embedded by what they do on these data:
      [$get] reads a path and gives [undefined] where it ends early,
      [$set] writes a path and makes the maps that are missing on the
      way, [$drop] deletes a key, [$merge] is [mergeDeep] of Immutable,
      [$all] applies effects from left to right, [toJS] and [fromJS]
      change the representation only, and [Array.prototype.sort] is
      stable.
    - [parentNodeContextPath] of [./helpers] is a parameter. *)

From Stdlib Require Import ZArith Ascii String Sorting.Sorted Sorting.Permutation Lia.
From stdpp Require Import gmap strings list fin_maps.

Local Open Scope string_scope.
Local Open Scope Z_scope.
Local Open Scope list_scope.

(** ** Values *)

(** What the [index] field of a record can hold. *)
Inductive jsindex :=
| IxUndefined
| IxNull
| IxNum (z : Z)
| IxNaN.

(** What the [parentContextPath] field of a record can hold. *)
Inductive pathref :=
| PUndefined
| PNull
| PStr (s : string).

(** Property values: scalars only. *)
Inductive pvalue :=
| PvNull
| PvBool (b : bool)
| PvNum (z : Z)
| PvStr (s : string).

Inductive number :=
| Num (z : Z)
| NaN.

#[global] Instance jsindex_eq_dec : EqDecision jsindex.
Proof. solve_decision. Defined.
#[global] Instance pathref_eq_dec : EqDecision pathref.
Proof. solve_decision. Defined.
#[global] Instance pvalue_eq_dec : EqDecision pvalue.
Proof. solve_decision. Defined.

(** [ToNumber] of the language, on the values an index can take. *)
Definition ToNumber (i : jsindex) : number :=
  match i with
  | IxUndefined => NaN
  | IxNull => Num 0
  | IxNum z => Num z
  | IxNaN => NaN
  end.

(** [a < b] *)
Definition js_lt (a b : jsindex) : bool :=
  match ToNumber a, ToNumber b with
  | Num x, Num y => bool_decide (x < y)
  | _, _ => false
  end.

(** The double nearest to an integer, a tie going to the even mantissa.
    An integer of up to [2^53] in size is a double; above, a double has
    53 significant bits, so with [2^(e+52) <= |z| < 2^(e+53)] the
    doubles around [z] are the multiples of [2^e]. *)
Definition toDouble (z : Z) : Z :=
  let a := Z.abs z in
  if bool_decide (a ≤ 2 ^ 53) then z
  else
    let e := Z.log2 a - 52 in
    let q := a / 2 ^ e in
    let r := a mod 2 ^ e in
    let half := 2 ^ (e - 1) in
    let q' := if bool_decide (r < half) then q
              else if bool_decide (half < r) then q + 1
              else if Z.even q then q else q + 1 in
    Z.sgn z * (q' * 2 ^ e).

(** [a + d] and [a - d] for a numeric literal [d]: the exact sum,
    rounded. *)
Definition js_add (a : jsindex) (d : Z) : jsindex :=
  match ToNumber a with
  | Num x => IxNum (toDouble (x + d))
  | NaN => IxNaN
  end.

Definition js_sub (a : jsindex) (d : Z) : jsindex :=
  match ToNumber a with
  | Num x => IxNum (toDouble (x - d))
  | NaN => IxNaN
  end.

(** A property key made of a value: [nodes[v]] reads [nodes[String(v)]]. *)
Definition toKey (p : pathref) : string :=
  match p with
  | PUndefined => "undefined"
  | PNull => "null"
  | PStr s => s
  end.

(** ** Node records *)

(** An entry [{contextPath, nodeType, index}] of a [children] list. *)
Record childRef := mkChildRef {
  c_contextPath : string;
  c_nodeType : option string;
  c_index : jsindex
}.

Record node := mkNode {
  contextPath : option string;
  parentContextPath : pathref;
  nodeType : option string;
  index : jsindex;
  properties : option (gmap string pvalue);
  uri : option string;
  children : option (list childRef)
}.

(** [{}] *)
Definition emptyNode : node :=
  mkNode None PUndefined None IxUndefined None None None.

Definition set_children (c : option (list childRef)) (n : node) : node :=
  mkNode (contextPath n) (parentContextPath n) (nodeType n) (index n)
         (properties n) (uri n) c.

Definition set_index (i : jsindex) (n : node) : node :=
  mkNode (contextPath n) (parentContextPath n) (nodeType n) i
         (properties n) (uri n) (children n).

Definition set_parentContextPath (p : pathref) (n : node) : node :=
  mkNode (contextPath n) p (nodeType n) (index n)
         (properties n) (uri n) (children n).

Definition set_uri (u : option string) (n : node) : node :=
  mkNode (contextPath n) (parentContextPath n) (nodeType n) (index n)
         (properties n) u (children n).

Definition set_properties (p : option (gmap string pvalue)) (n : node) : node :=
  mkNode (contextPath n) (parentContextPath n) (nodeType n) (index n)
         p (uri n) (children n).

(** ** Maps of nodes, in iteration order *)

Abbreviation nodeMap := (list (string * node)).

Definition keys (m : nodeMap) : list string := m.*1.

(** [m[k]], [m.get(k)] *)
Fixpoint nm_get (k : string) (m : nodeMap) : option node :=
  match m with
  | [] => None
  | (k', n) :: m' => if decide (k = k') then Some n else nm_get k m'
  end.

(** Write through an existing key: [m[k] = f(m[k])] when [k] is there. *)
Fixpoint nm_alter (k : string) (f : node → node) (m : nodeMap) : nodeMap :=
  match m with
  | [] => []
  | (k', n) :: m' =>
      if decide (k = k') then (k', f n) :: m' else (k', n) :: nm_alter k f m'
  end.

(** [$set] below a key: the record under [k] becomes [f] of what is
    there; a missing key is created from the empty record, last (the
    place it gets in a map of up to eight entries). *)
Fixpoint nm_update (k : string) (f : option node → node) (m : nodeMap) : nodeMap :=
  match m with
  | [] => [(k, f None)]
  | (k', n) :: m' =>
      if decide (k = k') then (k', f (Some n)) :: m'
      else (k', n) :: nm_update k f m'
  end.

(** [$drop] of a key *)
Definition nm_delete (k : string) (m : nodeMap) : nodeMap :=
  filter (λ kn, kn.1 ≠ k) m.

(** ** Exceptions *)

Inductive error :=
| TypeError (msg : string).

Inductive result (A : Type) :=
| Ok (a : A)
| Throw (e : error).
Arguments Ok {A} a.
Arguments Throw {A} e.

#[global] Instance result_ret : MRet result := λ A a, Ok a.
#[global] Instance result_bind : MBind result := λ A B f r,
  match r with
  | Ok a => f a
  | Throw e => Throw e
  end.

(** [keys.forEach(body)] over a state that the body mutates *)
Fixpoint forEach {S : Type} (ks : list string) (body : string → S → result S)
    (s : S) : result S :=
  match ks with
  | [] => Ok s
  | k :: ks' => s' ← body k s; forEach ks' body s'
  end.

(** ** The child index builder *)

(** The comparator handed to [sort]. *)
Definition compareIndex (a b : childRef) : Z :=
  let aIndex := c_index a in
  let bIndex := c_index b in
  if js_lt aIndex bIndex then -1
  else if js_lt bIndex aIndex then 1
  else 0.

(** [Array.prototype.sort] with a comparator, as a stable sort: an
    element moves behind the elements that the comparator puts strictly
    before it, and stays in front of the others.  This is the order of
    the language where the comparator is a consistent order, as it is on
    numeric indices. *)
Fixpoint sort_insert (cmp : childRef → childRef → Z) (x : childRef)
    (l : list childRef) : list childRef :=
  match l with
  | [] => [x]
  | y :: l' =>
      if bool_decide (0 < cmp x y) then y :: sort_insert cmp x l'
      else x :: y :: l'
  end.

Definition sort (cmp : childRef → childRef → Z) (l : list childRef) : list childRef :=
  foldr (sort_insert cmp) [] l.

(** First loop: [node.children = []] *)
Definition clearChildren (contextPath : string) (nodes : nodeMap) : result nodeMap :=
  match nm_get contextPath nodes with
  | None => Throw (TypeError "Cannot set properties of undefined")
  | Some _ => Ok (nm_alter contextPath (set_children (Some [])) nodes)
  end.

(** Second loop: push a reference onto the parent's list.  A parent
    found on the prototype chain only has no [children] array and is
    skipped like a missing one. *)
Definition pushToParent (contextPath : string) (nodes : nodeMap) : result nodeMap :=
  match nm_get contextPath nodes with
  | None => Throw (TypeError "Cannot read properties of undefined")
  | Some node =>
      match nm_get (toKey (parentContextPath node)) nodes with
      | Some parentNode =>
          match children parentNode with
          | Some cs =>
              Ok (nm_alter (toKey (parentContextPath node))
                    (set_children
                       (Some (cs ++ [mkChildRef contextPath (nodeType node) (index node)])%list))
                    nodes)
          | None => Ok nodes
          end
      | None => Ok nodes
      end
  end.

(** Third loop: [node.children.sort(...)] *)
Definition sortChildren (contextPath : string) (nodes : nodeMap) : result nodeMap :=
  match nm_get contextPath nodes with
  | None => Throw (TypeError "Cannot read properties of undefined")
  | Some node =>
      match children node with
      | None => Throw (TypeError "Cannot read properties of undefined")
      | Some cs =>
          Ok (nm_alter contextPath (set_children (Some (sort compareIndex cs))) nodes)
      end
  end.

(** [populateChildren(nodes)]; [None] is the argument [undefined], on
    which [Object.keys] throws. *)
Definition populateChildren (nodes : option nodeMap) : result nodeMap :=
  match nodes with
  | None => Throw (TypeError "Cannot convert undefined or null to object")
  | Some nodes =>
      nodes ← forEach (keys nodes) clearChildren nodes;
      nodes ← forEach (keys nodes) pushToParent nodes;
      forEach (keys nodes) sortChildren nodes
  end.

(** ** Strings *)

(** [s.startsWith(pat)] *)
Fixpoint startsWith (pat s : string) : bool :=
  match pat, s with
  | EmptyString, _ => true
  | String a pat', String b s' => bool_decide (a = b) && startsWith pat' s'
  | String _ _, EmptyString => false
  end.

Fixpoint dropChars (n : nat) (s : string) : string :=
  match n, s with
  | O, _ => s
  | S n', String _ s' => dropChars n' s'
  | S _, EmptyString => EmptyString
  end.

(** The first occurrence of [pat] in [s]: what stands before it and
    what stands behind it. *)
Fixpoint splitAtFirst (pat s : string) : option (string * string) :=
  if startsWith pat s then Some (EmptyString, dropChars (String.length pat) s)
  else
    match s with
    | EmptyString => None
    | String c s' =>
        match splitAtFirst pat s' with
        | Some (before, after) => Some (String c before, after)
        | None => None
        end
    end.

(** [s.includes(pat)] *)
Definition includes (pat s : string) : bool :=
  match splitAtFirst pat s with
  | Some _ => true
  | None => false
  end.

(** The replacement text of [String.prototype.replace] for a string
    pattern: there are no captures, so only the dollar forms for the
    dollar itself, the match, and the text before and behind it are
    expanded. *)
Fixpoint getSubstitution (matched before after replacement : string) : string :=
  match replacement with
  | EmptyString => EmptyString
  | String "$"%char (String "$"%char r) =>
      String "$"%char (getSubstitution matched before after r)
  | String "$"%char (String "&"%char r) =>
      matched +:+ getSubstitution matched before after r
  | String "$"%char (String "`"%char r) =>
      before +:+ getSubstitution matched before after r
  | String "$"%char (String "'"%char r) =>
      after +:+ getSubstitution matched before after r
  | String c r => String c (getSubstitution matched before after r)
  end.

(** [s.replace(pat, replacement)] for a string [pat]: the first
    occurrence only. *)
Definition replace (pat replacement s : string) : string :=
  match splitAtFirst pat s with
  | Some (before, after) =>
      before +:+ getSubstitution pat before after replacement +:+ after
  | None => s
  end.

(** ** The store *)

Record focus := mkFocus {
  f_contextPath : string;
  f_fusionPath : option string
}.

(** The part of the application state that the reducer reads and
    writes: [cr.nodes] and [ui.contentCanvas.contextPath]. *)
Record state := mkState {
  byContextPath : nodeMap;
  siteNode : string;
  focused : focus;
  toBeRemoved : string;
  clipboard : string;
  clipboardMode : string;
  contentCanvasContextPath : string
}.

(** [$set(['cr', 'nodes', 'byContextPath'], m, state)] *)
Definition set_byContextPath (m : nodeMap) (st : state) : state :=
  mkState m (siteNode st) (focused st) (toBeRemoved st) (clipboard st)
          (clipboardMode st) (contentCanvasContextPath st).

Definition set_siteNode (s : string) (st : state) : state :=
  mkState (byContextPath st) s (focused st) (toBeRemoved st) (clipboard st)
          (clipboardMode st) (contentCanvasContextPath st).

Definition set_focused (f : focus) (st : state) : state :=
  mkState (byContextPath st) (siteNode st) f (toBeRemoved st) (clipboard st)
          (clipboardMode st) (contentCanvasContextPath st).

Definition set_toBeRemoved (s : string) (st : state) : state :=
  mkState (byContextPath st) (siteNode st) (focused st) s (clipboard st)
          (clipboardMode st) (contentCanvasContextPath st).

Definition set_clipboard (s : string) (st : state) : state :=
  mkState (byContextPath st) (siteNode st) (focused st) (toBeRemoved st) s
          (clipboardMode st) (contentCanvasContextPath st).

Definition set_clipboardMode (s : string) (st : state) : state :=
  mkState (byContextPath st) (siteNode st) (focused st) (toBeRemoved st)
          (clipboard st) s (contentCanvasContextPath st).

Definition set_contentCanvasContextPath (s : string) (st : state) : state :=
  mkState (byContextPath st) (siteNode st) (focused st) (toBeRemoved st)
          (clipboard st) (clipboardMode st) s.

(** [$set(['cr', 'nodes', 'byContextPath', k, ...], ..., state)]: the
    record under [k] is rewritten by [f], and made when it is missing. *)
Definition set_in_node (k : string) (f : node → node) (st : state) : state :=
  set_byContextPath
    (nm_update k (λ e, f (default emptyNode e)) (byContextPath st)) st.

(** [$all(...effects, state)] *)
Definition all (effects : list (state → state)) (st : state) : state :=
  fold_left (λ s effect, effect s) effects st.

(** ** Merging *)

(** [JSON.parse(JSON.stringify(x))]: a [NaN] comes back as [null], a
    field that is [undefined] is dropped. *)
Definition json_index (i : jsindex) : jsindex :=
  match i with
  | IxNaN => IxNull
  | _ => i
  end.

Definition json_childRef (c : childRef) : childRef :=
  mkChildRef (c_contextPath c) (c_nodeType c) (json_index (c_index c)).

Definition json_node (n : node) : node :=
  mkNode (contextPath n) (parentContextPath n) (nodeType n)
         (json_index (index n)) (properties n) (uri n)
         (fmap (M := list) json_childRef <$> children n).

Definition jsonRoundTrip (m : nodeMap) : nodeMap :=
  prod_map id json_node <$> m.

(** [existing.mergeDeep(incoming)] of Immutable, which [$merge] applies
    at its path: a key of [incoming] that [existing] lacks is taken over,
    two collections under one key are merged in turn (maps key by key,
    lists position by position), anything else is overwritten. *)
Definition merge_scalar {A : Type} (e v : option A) : option A :=
  match v with
  | Some _ => v
  | None => e
  end.

(** Two references at one position of a list: a reference has its
    three keys, and each key of the incoming one overwrites. *)
Definition mergeDeep_childRef (e v : childRef) : childRef :=
  mkChildRef (c_contextPath v) (c_nodeType v) (c_index v).

Fixpoint mergeDeep_list (e v : list childRef) : list childRef :=
  match e, v with
  | _, [] => e
  | [], _ => v
  | x :: e', y :: v' => mergeDeep_childRef x y :: mergeDeep_list e' v'
  end.

Definition mergeDeep_node (e v : node) : node :=
  mkNode (merge_scalar (contextPath e) (contextPath v))
         (match parentContextPath v with
          | PUndefined => parentContextPath e
          | p => p
          end)
         (merge_scalar (nodeType e) (nodeType v))
         (match index v with IxUndefined => index e | i => i end)
         (match properties e, properties v with
          | Some pe, Some pv => Some (pv ∪ pe)
          | _, _ => merge_scalar (properties e) (properties v)
          end)
         (merge_scalar (uri e) (uri v))
         (match children e, children v with
          | Some ce, Some cv => Some (mergeDeep_list ce cv)
          | _, _ => merge_scalar (children e) (children v)
          end).

(** What ends up under a key of [incoming]. *)
Definition mergeInto (v : node) (existing : option node) : node :=
  match existing with
  | Some e => mergeDeep_node e v
  | None => v
  end.

Definition mergeDeep (existing incoming : nodeMap) : nodeMap :=
  fold_left (λ m kn, nm_update kn.1 (mergeInto kn.2) m) incoming existing.

(** ** Actions *)

(** What [INIT] is handed by the server. *)
Record serverState := mkServerState {
  init_byContextPath : option nodeMap;
  init_siteNode : option string
}.

Module actions.
Inductive action :=
| init (payload : serverState)
| add (nodeMap : nodeMap)
| focus (contextPath : string) (fusionPath : option string)
| unFocus
| commenceRemoval (contextPath : string)
| commenceCreation (referenceNodeContextPath referenceNodeFusionPath : string)
| abortRemoval
| confirmRemoval
| remove (contextPath : string)
| switchDimension (siteNodeContextPath documentNodeContextPath : string)
                  (nodes : nodeMap)
| copy (contextPath : string)
| cut (contextPath : string)
| move (nodeToBeMoved targetNode position : string)
| paste (contextPath : string) (fusionPath : option string)
| hide (contextPath : string)
| show (contextPath : string)
| updateUri (oldUriFragment newUriFragment : string).
End actions.

(** ** The reducer *)

(** [new Map({contextPath: '', fusionPath: ''})] *)
Definition emptyFocus : focus := mkFocus "" (Some "").

(** The builder runs over the object of the server; the map of the
    store is made of what it returns. *)
Definition INIT (payload : serverState) (st : state) : result state :=
  nodes ← populateChildren (init_byContextPath payload);
  Ok (mkState nodes (default "" (init_siteNode payload))
              emptyFocus "" "" ""
              (contentCanvasContextPath st)).

Definition ADD (nodeMap : nodeMap) (st : state) : result state :=
  let updatedState :=
    set_byContextPath (mergeDeep (byContextPath st) (jsonRoundTrip nodeMap)) st in
  let crNodes := byContextPath updatedState in
  processedCrNodes ← populateChildren (Some crNodes);
  Ok (set_byContextPath processedCrNodes st).

Section Move.
(** [parentNodeContextPath] of [./helpers], which is taken as given:
    the context path of the parent of a context path, or [null]. *)
Variable parentNodeContextPath : string → pathref.

Definition MOVE (sourceNodeContextPath targetNodeContextPath position : string)
    (st : state) : result state :=
  let targetNodeIndex :=
    match nm_get targetNodeContextPath (byContextPath st) with
    | Some n => index n
    | None => IxUndefined
    end in
  let newIndex :=
    if decide (position = "into") then IxNum 9007199254740991
    else if decide (position = "before") then js_sub targetNodeIndex 1
    else js_add targetNodeIndex 1 in
  let st := set_in_node sourceNodeContextPath (set_index newIndex) st in
  let baseNodeContextPath :=
    if decide (position = "into") then PStr targetNodeContextPath
    else parentNodeContextPath targetNodeContextPath in
  let st :=
    set_in_node sourceNodeContextPath
      (set_parentContextPath baseNodeContextPath) st in
  let crNodes := byContextPath st in
  processedCrNodes ← populateChildren (Some crNodes);
  Ok (set_byContextPath processedCrNodes st).
End Move.

Definition FOCUS (contextPath : string) (fusionPath : option string)
    (st : state) : state :=
  set_focused (mkFocus contextPath fusionPath) st.

Definition UNFOCUS (st : state) : state :=
  set_focused emptyFocus st.

Definition COMMENCE_REMOVAL (contextPath : string) (st : state) : state :=
  set_toBeRemoved contextPath st.

Definition REMOVAL_ABORTED (st : state) : state := set_toBeRemoved "" st.

Definition REMOVAL_CONFIRMED (st : state) : state := set_toBeRemoved "" st.

Definition REMOVE (contextPath : string) (st : state) : state :=
  set_byContextPath (nm_delete contextPath (byContextPath st)) st.

Definition SWITCH_DIMENSION (siteNodeContextPath documentNodeContextPath : string)
    (nodes : nodeMap) (st : state) : result state :=
  populated ← populateChildren (Some nodes);
  Ok (all [ set_siteNode siteNodeContextPath;
            set_contentCanvasContextPath documentNodeContextPath;
            set_focused emptyFocus;
            λ s, set_byContextPath (mergeDeep (byContextPath s) populated) s ]
          st).

Definition COPY (contextPath : string) (st : state) : state :=
  all [ set_clipboard contextPath; set_clipboardMode "Copy" ] st.

Definition CUT (contextPath : string) (st : state) : state :=
  all [ set_clipboard contextPath; set_clipboardMode "Move" ] st.

Definition PASTE (st : state) : state := set_clipboard "" st.

Definition set_hidden (b : bool) (n : node) : node :=
  set_properties
    (Some (<["_hidden" := PvBool b]> (default ∅ (properties n)))) n.

Definition HIDE (contextPath : string) (st : state) : state :=
  set_in_node contextPath (set_hidden true) st.

Definition SHOW (contextPath : string) (st : state) : state :=
  set_in_node contextPath (set_hidden false) st.

(** What the callback of [allNodes.map] returns for one record: an
    effect on the state, or [null].  A record without a [contextPath]
    field addresses the key [undefined]. *)
Definition updateUriOf (oldUriFragment newUriFragment : string) (nd : node)
    : option (state → state) :=
  match uri nd with
  | Some nodeUri =>
      if bool_decide (nodeUri ≠ "")
         && (includes (oldUriFragment +:+ "/") nodeUri
             || includes (oldUriFragment +:+ "@") nodeUri)
      then
        let contextPath := default "undefined" (contextPath nd) in
        Some (set_in_node contextPath
                (set_uri
                   (Some (replace (oldUriFragment +:+ "/") (newUriFragment +:+ "/")
                            (replace (oldUriFragment +:+ "@") (newUriFragment +:+ "@")
                               nodeUri)))))
      else None
  | None => None
  end.

Definition UPDATE_URI (oldUriFragment newUriFragment : string) (st : state) : state :=
  let allNodes := byContextPath st in
  all (omap (updateUriOf oldUriFragment newUriFragment) allNodes.*2) st.

(** [handleActions]: the handler of the action's type applied to the
    payload and the state; an action without a handler leaves the
    state as it is. *)
Definition reducer (parentNodeContextPath : string → pathref)
    (st : state) (a : actions.action) : result state :=
  match a with
  | actions.init payload => INIT payload st
  | actions.add nodeMap => ADD nodeMap st
  | actions.move nodeToBeMoved targetNode position =>
      MOVE parentNodeContextPath nodeToBeMoved targetNode position st
  | actions.focus contextPath fusionPath => Ok (FOCUS contextPath fusionPath st)
  | actions.unFocus => Ok (UNFOCUS st)
  | actions.commenceRemoval contextPath => Ok (COMMENCE_REMOVAL contextPath st)
  | actions.commenceCreation _ _ => Ok st
  | actions.abortRemoval => Ok (REMOVAL_ABORTED st)
  | actions.confirmRemoval => Ok (REMOVAL_CONFIRMED st)
  | actions.remove contextPath => Ok (REMOVE contextPath st)
  | actions.switchDimension siteNodeContextPath documentNodeContextPath nodes =>
      SWITCH_DIMENSION siteNodeContextPath documentNodeContextPath nodes st
  | actions.copy contextPath => Ok (COPY contextPath st)
  | actions.cut contextPath => Ok (CUT contextPath st)
  | actions.paste _ _ => Ok (PASTE st)
  | actions.hide contextPath => Ok (HIDE contextPath st)
  | actions.show contextPath => Ok (SHOW contextPath st)
  | actions.updateUri oldUriFragment newUriFragment =>
      Ok (UPDATE_URI oldUriFragment newUriFragment st)
  end.

(** ** What the builder computes, in closed form *)

(** The reference that the builder pushes for the record under a key. *)
Definition childRefOf (kn : string * node) : childRef :=
  mkChildRef kn.1 (nodeType kn.2) (index kn.2).

(** The references to the records whose parent link reads as the key
    [k], in the order of the map. *)
Definition childrenOf (k : string) (m : nodeMap) : list childRef :=
  childRefOf <$> filter (λ kn, toKey (parentContextPath kn.2) = k) m.

(** A map with every record rewritten by a function of its key. *)
Definition kmap (g : string → node → node) (m : nodeMap) : nodeMap :=
  (λ kn, (kn.1, g kn.1 kn.2)) <$> m.

Definition rebuilt (m : nodeMap) : nodeMap :=
  kmap (λ k, set_children (Some (sort compareIndex (childrenOf k m)))) m.

(** All of a record but its derived [children]. *)
Definition strip (n : node) : node := set_children None n.

Definition stripMap (m : nodeMap) : nodeMap := prod_map id strip <$> m.

(** The order that the comparator induces on numeric indices. *)
Definition index_le (a b : childRef) : Prop :=
  match ToNumber (c_index a), ToNumber (c_index b) with
  | Num x, Num y => x ≤ y
  | _, _ => False
  end.

Definition hasIndex (z : Z) (c : childRef) : Prop :=
  ToNumber (c_index c) = Num z.

#[global] Instance number_eq_dec : EqDecision number.
Proof. solve_decision. Defined.

#[global] Instance hasIndex_dec z c : Decision (hasIndex z c).
Proof. unfold hasIndex. apply _. Defined.

Definition isNumeric (i : jsindex) : Prop := ToNumber i ≠ NaN.

(** The map after the second loop has visited the records [d]. *)
Definition pushed (d m : nodeMap) : nodeMap :=
  kmap (λ k, set_children (Some (childrenOf k d))) m.


(** ** Sample data *)

Definition sampleNode (parent : pathref) (i : Z) : node :=
  mkNode None parent (Some "Neos.NodeTypes:Page") (IxNum i) None None None.

(** A parent [P] with the children [A], [B] and [C] of indices 1, 2, 3. *)
Definition siblings : nodeMap :=
  [ ("P", sampleNode PNull 0);
    ("A", sampleNode (PStr "P") 1);
    ("B", sampleNode (PStr "P") 2);
    ("C", sampleNode (PStr "P") 3) ].

Definition storeOf (m : nodeMap) : state :=
  mkState m "" emptyFocus "" "" "" "".

(** A [parentNodeContextPath] for the sample data. *)
Definition sampleParent (contextPath : string) : pathref :=
  if decide (contextPath = "P") then PNull else PStr "P".

(** ** What a move amounts to *)

(** The index that [MOVE] reads off the target. *)
Definition targetIndexOf (targetNode : string) (st : state) : jsindex :=
  default IxUndefined (index <$> nm_get targetNode (byContextPath st)).

(** The map of [st] with the two fields of the moved record set. *)
Definition withMoved (src : string) (newIndex : jsindex) (base : pathref)
    (st : state) : nodeMap :=
  nm_update src
    (λ e, set_parentContextPath base (set_index newIndex (default emptyNode e)))
    (byContextPath st).

(** The outcome [r] of a move of [src] is a store that differs from [st]
    in its map of records only, where the record under [src] has the
    index [newIndex] and the parent [base].  Every key reads, but for
    its list of children, what it reads in the map of [st] with these
    two fields set; the lists of children are those that the builder
    makes of the new map; the only key that can be new is [src]; and
    when [src] is a key of [st], the new map is the very map that the
    builder makes of the map of [st] with the two fields set. *)
Definition movedTo (st : state) (src : string) (newIndex : jsindex)
    (base : pathref) (r : result state) : Prop :=
  ∃ st' moved,
    r = Ok st'
    ∧ nm_get src (byContextPath st') = Some moved
    ∧ index moved = newIndex
    ∧ parentContextPath moved = base
    ∧ (∀ k, strip <$> nm_get k (byContextPath st')
            = strip <$> nm_get k (withMoved src newIndex base st))
    ∧ populateChildren (Some (byContextPath st')) = Ok (byContextPath st')
    ∧ (∀ k, k ∈ keys (byContextPath st')
            ↔ k ∈ keys (byContextPath st) ∨ k = src)
    ∧ (src ∈ keys (byContextPath st) →
       populateChildren (Some (withMoved src newIndex base st))
       = Ok (byContextPath st'))
    ∧ st' = set_byContextPath (byContextPath st') st.

(** [d] is the double nearest to the integer [z], a tie going to the
    even mantissa: [z] itself up to [2^53] in size, and above, where
    [2^(e+52) <= |z| < 2^(e+53)], the multiple of [2^e] at most
    [2^e / 2] away from [z], the even one of the two at that distance. *)
Definition nearestDouble (z d : Z) : Prop :=
  (Z.abs z ≤ 2 ^ 53 ∧ d = z)
  ∨ ∃ e, 1 ≤ e ∧ 2 ^ (e + 52) ≤ Z.abs z < 2 ^ (e + 53)
         ∧ (2 ^ e | d) ∧ 2 * Z.abs (d - z) ≤ 2 ^ e
         ∧ (2 * Z.abs (d - z) = 2 ^ e → Z.even (d / 2 ^ e) = true).

(** ** What an update of the uris amounts to *)

(** [s] has an occurrence of [pat]. *)
Definition contains (pat s : string) : Prop :=
  ∃ before after, s = before +:+ pat +:+ after.

(** A replacement text without a dollar stands for itself. *)
Fixpoint plain (replacement : string) : bool :=
  match replacement with
  | EmptyString => true
  | String c r => bool_decide (c ≠ "$"%char) && plain r
  end.

(** [before] and [after] are what stands in front of and behind the
    first occurrence of [pat] in [s]. *)
Definition firstOccurrence (pat s before after : string) : Prop :=
  s = before +:+ pat +:+ after
  ∧ ∀ before' after', s = before' +:+ pat +:+ after' →
      (String.length before ≤ String.length before')%nat.

(** [s'] is [s] with [text before after] in the place of the first
    occurrence of [pat], and [s] itself when [pat] does not occur. *)
Definition firstReplacedBy (pat : string) (text : string → string → string)
    (s s' : string) : Prop :=
  (∃ before after,
      firstOccurrence pat s before after
      ∧ s' = before +:+ text before after +:+ after)
  ∨ (¬ contains pat s ∧ s' = s).

(** The test that [UPDATE_URI] makes on a uri. *)
Definition uriMatches (oldUriFragment nodeUri : string) : bool :=
  includes (oldUriFragment +:+ "/") nodeUri
  || includes (oldUriFragment +:+ "@") nodeUri.

(** The uri that [UPDATE_URI] writes. *)
Definition rewrittenUri (oldUriFragment newUriFragment nodeUri : string) : string :=
  replace (oldUriFragment +:+ "/") (newUriFragment +:+ "/")
    (replace (oldUriFragment +:+ "@") (newUriFragment +:+ "@") nodeUri).

Definition withUpdatedUri (oldUriFragment newUriFragment : string) (n : node) : node :=
  match uri n with
  | Some nodeUri =>
      if uriMatches oldUriFragment nodeUri
      then set_uri (Some (rewrittenUri oldUriFragment newUriFragment nodeUri)) n
      else n
  | None => n
  end.

(** Every record that has a uri carries the key it is stored under in
    its [contextPath] field. *)
Definition keyedByContextPath (m : nodeMap) : Prop :=
  Forall (λ kn, is_Some (uri kn.2) → contextPath kn.2 = Some kn.1) m.

Definition documentNode (contextPath nodeUri : string) : node :=
  mkNode (Some contextPath) PNull (Some "Neos.NodeTypes:Page") (IxNum 0)
         None (Some nodeUri) None.

Definition shop : nodeMap :=
  [ ("/sites/shop/shoes@live",
     documentNode "/sites/shop/shoes@live" "/shop/shoes@live");
    ("/sites/shop/shoes/red@live",
     documentNode "/sites/shop/shoes/red@live" "/shop/shoes/red@live");
    ("/sites/shop/shoeshine@live",
     documentNode "/sites/shop/shoeshine@live" "/shop/shoeshine@live") ].

(** A page [shoes] below a page [shoes], and a record that is stored
    under another key than its [contextPath] field names. *)
Definition nestedShoes : nodeMap :=
  [ ("/sites/shoes/shoes/red@live",
     documentNode "/sites/shoes/shoes/red@live" "/shoes/shoes/red@live") ].

Definition misfiled : nodeMap :=
  [ ("/sites/a@live", documentNode "/sites/b@live" "/shoes@live") ].

(** ** Actions and keys *)

(** The actions that the specification names as leaving the keys of
    the map alone. *)
Definition namedKeyPreserving (a : actions.action) : Prop :=
  match a with
  | actions.move _ _ _ | actions.hide _ | actions.show _
  | actions.focus _ _ | actions.unFocus
  | actions.copy _ | actions.cut _ | actions.paste _ _
  | actions.commenceRemoval _ | actions.abortRemoval
  | actions.confirmRemoval | actions.updateUri _ _ => True
  | _ => False
  end.

(** The context path under which the action writes is a key of the
    map: the moved record for a move, the record to hide or to show,
    and for an update of the uris the [contextPath] field of every
    record that has a uri. *)
Definition writesUnderKey (st : state) (a : actions.action) : Prop :=
  match a with
  | actions.move nodeToBeMoved _ _ => nodeToBeMoved ∈ keys (byContextPath st)
  | actions.hide contextPath | actions.show contextPath =>
      contextPath ∈ keys (byContextPath st)
  | actions.updateUri _ _ =>
      Forall (λ n, is_Some (uri n) →
                   ∃ c, contextPath n = Some c ∧ c ∈ keys (byContextPath st))
             (byContextPath st).*2
  | _ => True
  end.

(** The context path that [UPDATE_URI] writes under for the record [n]:
    what its [contextPath] field reads, when its uri matches. *)
Definition uriWrittenUnder (oldUriFragment : string) (n : node) : option string :=
  match uri n with
  | Some nodeUri =>
      if uriMatches oldUriFragment nodeUri
      then Some (default "undefined" (contextPath n))
      else None
  | None => None
  end.

(** The context paths under which the action writes. *)
Definition writtenKeys (st : state) (a : actions.action) : list string :=
  match a with
  | actions.move nodeToBeMoved _ _ => [nodeToBeMoved]
  | actions.hide contextPath | actions.show contextPath => [contextPath]
  | actions.updateUri oldUriFragment _ =>
      omap (uriWrittenUnder oldUriFragment) (byContextPath st).*2
  | _ => []
  end.

(** The payload is what the action is made for: the maps of records
    have unique keys, and the server state holds a map. *)
Definition wellFormedAction (a : actions.action) : Prop :=
  match a with
  | actions.init payload =>
      ∃ m, init_byContextPath payload = Some m ∧ NoDup (keys m)
  | actions.add nodeMap => NoDup (keys nodeMap)
  | actions.switchDimension _ _ nodes => NoDup (keys nodes)
  | _ => True
  end.

(** A parent [P] that lists its child [C]. *)
Definition family : nodeMap :=
  [ ("P", set_children (Some [mkChildRef "C" (Some "Neos.NodeTypes:Page") (IxNum 1)])
            (sampleNode PNull 0));
    ("C", set_children (Some []) (sampleNode (PStr "P") 1)) ].

(** ** Sample data for [ADD] *)

(** A record in the store, and an update of it that has a new index
    and a new title and names neither a uri nor the hidden flag. *)
Definition storedPage : node :=
  mkNode (Some "/sites/a@live") PNull (Some "Neos.NodeTypes:Page") (IxNum 1)
         (Some {[ "title" := PvStr "Old"; "_hidden" := PvBool true ]})
         (Some "/a@live") (Some []).

Definition incomingPage : node :=
  mkNode (Some "/sites/a@live") PNull (Some "Neos.NodeTypes:Page") (IxNum 2)
         (Some {[ "title" := PvStr "New" ]})
         None None.

(** ** The tree of nodes: [NodeTree/index.js] *)

(** [contextPath.split('@')[0]] *)
Definition pathOf (contextPath : string) : string :=
  match splitAtFirst "@" contextPath with
  | Some (before, _) => before
  | None => contextPath
  end.

(** [hasNestedNodes]: whether some focused context path starts with the
    path of another one.  [contextPathB.indexOf(path) === 0] holds when
    [contextPathB] starts with [path]. *)
Definition hasNestedNodes (focusedNodesContextPaths : list string) : bool :=
  negb
    (forallb
       (λ contextPathA,
          let path := pathOf contextPathA in
          forallb
            (λ contextPathB,
               negb (startsWith path contextPathB
                     && bool_decide (contextPathA ≠ contextPathB)))
            focusedNodesContextPaths)
       focusedNodesContextPaths).

(** ** Kinds of actions *)

(** The actions whose handler runs the builder over the map of the
    store as this map iterates, and stores what the builder returns.
    ([INIT] runs the builder over the object of the server, before the
    map of the store is made of it.) *)
Definition rebuildsChildren (a : actions.action) : Prop :=
  match a with
  | actions.add _ | actions.move _ _ _ => True
  | _ => False
  end.

(** The actions that write the focus, the clipboard or the removal
    mark, and [COMMENCE_CREATION], which has no handler. *)
Definition bookkeeping (a : actions.action) : Prop :=
  match a with
  | actions.focus _ _ | actions.unFocus
  | actions.commenceRemoval _ | actions.commenceCreation _ _
  | actions.abortRemoval | actions.confirmRemoval
  | actions.copy _ | actions.cut _ | actions.paste _ _ => True
  | _ => False
  end.

(** The actions that write neither a parent, a type, an index nor a
    list of children. *)
Definition writesNoStructure (a : actions.action) : Prop :=
  match a with
  | actions.hide _ | actions.show _ | actions.updateUri _ _ => True
  | _ => bookkeeping a
  end.

(** The builder finds nothing to change in the map. *)
Definition childrenBuilt (m : nodeMap) : Prop :=
  populateChildren (Some m) = Ok m.

(** Two records with the same place in the tree and the same list. *)
Definition sameStructure (n n' : node) : Prop :=
  parentContextPath n = parentContextPath n'
  ∧ nodeType n = nodeType n'
  ∧ index n = index n'
  ∧ children n = children n'.

(** The map [family] without its lists of children. *)
Definition bareFamily : nodeMap :=
  [ ("P", sampleNode PNull 0); ("C", sampleNode (PStr "P") 1) ].

(** The store [st'] is the store [st] with the hidden flag of the
    record under [contextPath] set to [b]: that record, made from the
    empty record when it is missing, has the flag among its properties
    and is as it was otherwise, and nothing else has changed. *)
Definition hiddenSetTo (b : bool) (contextPath : string) (st st' : state) : Prop :=
  let n := default emptyNode (nm_get contextPath (byContextPath st)) in
  (∃ n' pr,
     nm_get contextPath (byContextPath st') = Some n'
     ∧ properties n' = Some pr
     ∧ pr !! "_hidden" = Some (PvBool b)
     ∧ (∀ name, name ≠ "_hidden" →
                pr !! name = default ∅ (properties n) !! name)
     ∧ n' = set_properties (Some pr) n)
  ∧ (∀ k, k ≠ contextPath →
          nm_get k (byContextPath st') = nm_get k (byContextPath st))
  ∧ st' = set_byContextPath (byContextPath st') st.

(** A record with an index that is not a number. *)
Definition unnumbered : node :=
  mkNode (Some "/sites/a@live") PNull (Some "Neos.NodeTypes:Page") IxNaN
         None None None.
(** ** Facts about maps of nodes *)

Section nodeMap_facts.
Implicit Types (m : nodeMap) (k : string) (n : node).

Lemma nm_get_None k m : nm_get k m = None ↔ k ∉ keys m.
Proof.
  unfold keys. induction m as [|[k' n'] m IH]; simpl.
  - split; [intros _; apply not_elem_of_nil | done].
  - rewrite not_elem_of_cons. case_decide; subst.
    + split; [done | intros [? _]; done].
    + rewrite IH. tauto.
Qed.

Lemma nm_get_is_Some k m : is_Some (nm_get k m) ↔ k ∈ keys m.
Proof.
  rewrite <- not_eq_None_Some, nm_get_None.
  destruct (decide (k ∈ keys m)); tauto.
Qed.

Lemma nm_get_Some_elem k n m : nm_get k m = Some n → (k, n) ∈ m.
Proof.
  induction m as [|[k' n'] m IH]; simpl; [done|].
  case_decide; subst.
  - intros [= ->]. apply list_elem_of_here.
  - intros H'. apply list_elem_of_further. auto.
Qed.

Lemma elem_keys k n m : (k, n) ∈ m → k ∈ keys m.
Proof. intros H. unfold keys. apply list_elem_of_fmap. by exists (k, n). Qed.

Lemma nm_get_elem k n m : NoDup (keys m) → (k, n) ∈ m → nm_get k m = Some n.
Proof.
  unfold keys. induction m as [|[k' n'] m IH]; simpl.
  - intros _ H. by apply elem_of_nil in H.
  - rewrite NoDup_cons. intros [Hk Hm] H.
    apply elem_of_cons in H as [[= -> ->]|H].
    + by rewrite decide_True.
    + rewrite decide_False; [by apply IH|].
      intros ->. apply Hk. by apply (elem_keys _ n).
Qed.

Lemma nm_get_app_notin k pre m : k ∉ keys pre → nm_get k (pre ++ m) = nm_get k m.
Proof.
  unfold keys. induction pre as [|[k' n'] pre IH]; simpl; [done|].
  rewrite not_elem_of_cons. intros [Hne Hk].
  rewrite decide_False by done. auto.
Qed.

Lemma keys_nm_alter k f m : keys (nm_alter k f m) = keys m.
Proof.
  unfold keys. induction m as [|[k' n'] m IH]; simpl; [done|].
  case_decide; csimpl; [done | by rewrite IH].
Qed.

Lemma nm_alter_notin k f m : k ∉ keys m → nm_alter k f m = m.
Proof.
  unfold keys. induction m as [|[k' n'] m IH]; simpl; [done|].
  rewrite not_elem_of_cons. intros [Hne Hk].
  rewrite decide_False by done. by rewrite IH.
Qed.

Lemma nm_alter_app_notin k f pre m :
  k ∉ keys pre → nm_alter k f (pre ++ m) = pre ++ nm_alter k f m.
Proof.
  unfold keys. induction pre as [|[k' n'] pre IH]; simpl; [done|].
  rewrite not_elem_of_cons. intros [Hne Hk].
  rewrite decide_False by done. by rewrite IH.
Qed.

(** With unique keys, writing through a key is a pointwise rewrite. *)
Lemma nm_alter_kmap k f m :
  NoDup (keys m) →
  nm_alter k f m = kmap (λ k' n, if decide (k' = k) then f n else n) m.
Proof.
  unfold keys, kmap. induction m as [|[k' n'] m IH]; simpl; [done|].
  rewrite NoDup_cons. intros [Hk Hm]. case_decide; subst.
  - rewrite decide_True by done. f_equal.
    transitivity (nm_alter k' f m); [by rewrite nm_alter_notin|]. by apply IH.
  - rewrite decide_False by done. f_equal. by apply IH.
Qed.

Lemma keys_kmap g m : keys (kmap g m) = keys m.
Proof.
  unfold keys, kmap. rewrite <- list_fmap_compose.
  apply Forall_fmap_ext_1, Forall_forall. by intros [k n] _.
Qed.

Lemma nm_get_kmap g k m : nm_get k (kmap g m) = g k <$> nm_get k m.
Proof.
  unfold kmap. induction m as [|[k' n'] m IH]; simpl; [done|].
  case_decide; subst; simpl; [done | apply IH].
Qed.

Lemma kmap_kmap g h m : kmap g (kmap h m) = kmap (λ k n, g k (h k n)) m.
Proof.
  unfold kmap. rewrite <- list_fmap_compose.
  apply Forall_fmap_ext_1, Forall_forall. by intros [k n] _.
Qed.

Lemma kmap_ext g h m :
  (∀ k n, (k, n) ∈ m → g k n = h k n) → kmap g m = kmap h m.
Proof.
  intros H. unfold kmap. apply Forall_fmap_ext_1, Forall_forall.
  intros [k n] Hin. simpl. f_equal. by apply H.
Qed.

Lemma kmap_id g m : (∀ k n, (k, n) ∈ m → g k n = n) → kmap g m = m.
Proof.
  intros H. transitivity (kmap (λ _ n, n) m); [by apply kmap_ext|].
  unfold kmap. rewrite <- (list_fmap_id m) at 2.
  apply Forall_fmap_ext_1, Forall_forall. by intros [k n] _.
Qed.

Lemma elem_of_kmap g k n' m :
  (k, n') ∈ kmap g m ↔ ∃ n, (k, n) ∈ m ∧ n' = g k n.
Proof.
  unfold kmap. rewrite list_elem_of_fmap. split.
  - intros [[k0 n0] [[= -> ->] Hin]]. eauto.
  - intros [n [Hin ->]]. by exists (k, n).
Qed.
End nodeMap_facts.

(** ** The three loops of the builder *)

Section builder_facts.
Implicit Types (m : nodeMap) (k : string) (n : node).

Lemma nm_alter_ext k f g m n :
  nm_get k m = Some n → f n = g n → nm_alter k f m = nm_alter k g m.
Proof.
  induction m as [|[k' n'] m IH]; simpl; [done|].
  case_decide; subst.
  - intros [= ->] ->. done.
  - intros. f_equal. auto.
Qed.

(** A loop over the keys that writes through each key in turn. *)
Lemma forEach_alter (body : string → nodeMap → result nodeMap)
    (f : node → node) (P : node → Prop) :
  (∀ k s n, nm_get k s = Some n → P n → body k s = Ok (nm_alter k f s)) →
  ∀ rest pre,
    NoDup (keys (pre ++ rest)) → Forall (λ kn, P kn.2) rest →
    forEach (keys rest) body (pre ++ rest) = Ok (pre ++ kmap (λ _, f) rest).
Proof.
  intros Hbody. induction rest as [|[k n] rest IH]; intros pre Hnd HP.
  - done.
  - assert (k ∉ keys pre) as Hk.
    { unfold keys in *. rewrite fmap_app in Hnd.
      apply NoDup_app in Hnd as (_ & Hd & _).
      intros Hin. apply (Hd _ Hin). csimpl. apply list_elem_of_here. }
    inversion_clear HP as [|? ? HPn HPrest].
    assert (nm_get k (pre ++ (k, n) :: rest) = Some n) as Hget.
    { rewrite nm_get_app_notin by done. simpl. by rewrite decide_True. }
    cbn [keys fmap list_fmap fst forEach]. unfold keys in *. csimpl.
    rewrite (Hbody _ _ _ Hget HPn). simpl.
    rewrite nm_alter_app_notin by done. simpl. rewrite decide_True by done.
    rewrite (cons_middle _ pre rest), app_assoc.
    rewrite IH; [by rewrite <- app_assoc| |done].
    rewrite <- app_assoc. simpl.
    by rewrite !fmap_app in *.
Qed.

Lemma childrenOf_snoc k' d k n :
  childrenOf k' (d ++ [(k, n)]) =
  if decide (toKey (parentContextPath n) = k')
  then childrenOf k' d ++ [childRefOf (k, n)]
  else childrenOf k' d.
Proof.
  unfold childrenOf. rewrite filter_app, fmap_app, filter_cons. simpl.
  case_decide; simpl; [done | by rewrite app_nil_r].
Qed.

Lemma pushToParent_step m d k n :
  NoDup (keys m) → nm_get k m = Some n →
  pushToParent k (pushed d m) = Ok (pushed (d ++ [(k, n)]) m).
Proof.
  intros Hnd Hget. unfold pushToParent, pushed.
  rewrite nm_get_kmap, Hget. simpl. rewrite nm_get_kmap.
  destruct (nm_get (toKey (parentContextPath n)) m) as [pn|] eqn:Hp; simpl.
  - f_equal. rewrite nm_alter_kmap by (by rewrite keys_kmap).
    rewrite kmap_kmap. apply kmap_ext. intros k' n' _.
    rewrite childrenOf_snoc. case_decide; subst.
    + by rewrite decide_True.
    + by rewrite decide_False.
  - f_equal. apply kmap_ext. intros k' n' Hin.
    rewrite childrenOf_snoc, decide_False; [done|].
    intros <-. apply nm_get_None in Hp. apply Hp. by apply (elem_keys _ n').
Qed.

Lemma forEach_pushToParent m :
  NoDup (keys m) →
  ∀ todo d, m = d ++ todo →
    forEach (keys todo) pushToParent (pushed d m) = Ok (pushed m m).
Proof.
  intros Hnd. induction todo as [|[k n] todo IH]; intros d ->.
  - by rewrite app_nil_r.
  - cbn [keys fmap list_fmap fst forEach]. unfold keys in *. csimpl.
    rewrite (pushToParent_step _ d k n); [|done|].
    + simpl. apply IH. by rewrite <- app_assoc.
    + apply nm_get_elem; [done|].
      apply elem_of_app. right. apply list_elem_of_here.
Qed.

(** The builder returns, and returns the map in which every record
    has the sorted references to its children. *)
Lemma populateChildren_rebuilt m :
  NoDup (keys m) → populateChildren (Some m) = Ok (rebuilt m).
Proof.
  intros Hnd. unfold populateChildren.
  assert (forEach (keys m) clearChildren m = Ok (pushed [] m)) as ->.
  { apply (forEach_alter clearChildren (set_children (Some [])) (λ _, True)
             (λ k s n Hget _, ltac:(unfold clearChildren; by rewrite Hget))
             m []); [done|].
    by apply Forall_forall. }
  simpl. unfold pushed at 1. rewrite keys_kmap. fold (pushed [] m).
  rewrite (forEach_pushToParent m Hnd m []) by done. simpl.
  unfold pushed at 1. rewrite keys_kmap. fold (pushed m m).
  pose (f := λ n, set_children (Some (sort compareIndex (default [] (children n)))) n).
  rewrite <- (keys_kmap (λ k, set_children (Some (childrenOf k m))) m).
  fold (pushed m m).
  assert (forEach (keys (pushed m m)) sortChildren (pushed m m)
          = Ok (kmap (λ _, f) (pushed m m))) as ->.
  { apply (forEach_alter sortChildren f (λ n, is_Some (children n))
             (λ k s n Hget HP,
                ltac:(unfold sortChildren; rewrite Hget;
                      destruct HP as [cs Hcs]; rewrite Hcs; f_equal;
                      apply (nm_alter_ext _ _ _ _ n); [done|];
                      unfold f; by rewrite Hcs)) (pushed m m) []).
    - simpl. unfold pushed. by rewrite keys_kmap.
    - apply Forall_forall. intros [k n'] Hin. simpl.
      apply elem_of_kmap in Hin as [n [_ ->]]. by eexists. }
  f_equal. unfold pushed, rebuilt. rewrite kmap_kmap. by apply kmap_ext.
Qed.
End builder_facts.

(** ** The sort *)

Section sort_facts.
Implicit Types (x y : childRef) (l : list childRef).

Lemma compareIndex_pos x y :
  0 < compareIndex x y ↔ js_lt (c_index x) (c_index y) = false
                         ∧ js_lt (c_index y) (c_index x) = true.
Proof.
  unfold compareIndex.
  destruct (js_lt (c_index x) (c_index y)), (js_lt (c_index y) (c_index x));
    intuition (try lia; try discriminate).
Qed.

Lemma js_lt_true a b :
  js_lt a b = true ↔ ∃ p q, ToNumber a = Num p ∧ ToNumber b = Num q ∧ p < q.
Proof.
  unfold js_lt. destruct (ToNumber a) as [p|], (ToNumber b) as [q|].
  - rewrite bool_decide_eq_true. split; [by eauto 6|].
    intros (? & ? & [= <-] & [= <-] & ?). done.
  - split; [done|]. by intros (? & ? & _ & ? & _).
  - split; [done|]. by intros (? & ? & ? & _).
  - split; [done|]. by intros (? & ? & ? & _).
Qed.

Lemma sort_insert_Permutation cmp x l : sort_insert cmp x l ≡ₚ x :: l.
Proof.
  induction l as [|y l IH]; simpl; [done|].
  case_bool_decide; [|done]. rewrite IH. apply Permutation_swap.
Qed.

Lemma sort_Permutation cmp l : sort cmp l ≡ₚ l.
Proof.
  unfold sort. induction l as [|x l IH]; simpl; [done|].
  by rewrite sort_insert_Permutation, IH.
Qed.

Lemma index_le_trans x y z : index_le x y → index_le y z → index_le x z.
Proof.
  unfold index_le.
  destruct (ToNumber (c_index x)), (ToNumber (c_index y)),
    (ToNumber (c_index z)); try done. lia.
Qed.

Lemma sort_insert_sorted x l :
  isNumeric (c_index x) → Forall (λ y, isNumeric (c_index y)) l →
  StronglySorted index_le l →
  StronglySorted index_le (sort_insert compareIndex x l).
Proof.
  intros Hx. induction l as [|y l IH]; intros Hl Hs; simpl.
  - repeat constructor.
  - inversion_clear Hl as [|? ? Hy Hl']. inversion_clear Hs as [|? ? Hs' Hle].
    case_bool_decide as Hc.
    + apply compareIndex_pos in Hc as [_ Hc].
      apply js_lt_true in Hc as (p & q & Hp & Hq & Hpq).
      constructor; [by apply IH|].
      rewrite sort_insert_Permutation. constructor; [|done].
      unfold index_le. rewrite Hp, Hq. lia.
    + assert (index_le x y) as Hxy.
      { rewrite compareIndex_pos in Hc. unfold index_le.
        unfold isNumeric in Hx, Hy.
        destruct (js_lt (c_index x) (c_index y)) eqn:E1.
        - apply js_lt_true in E1 as (p & q & -> & -> & ?). lia.
        - destruct (js_lt (c_index y) (c_index x)) eqn:E2; [tauto|].
          unfold js_lt in E1, E2.
          destruct (ToNumber (c_index x)), (ToNumber (c_index y)); try done.
          apply bool_decide_eq_false in E1, E2. lia. }
      constructor; [by constructor|]. constructor; [done|].
      eapply Forall_impl; [exact Hle|]. intros z. by apply index_le_trans.
Qed.

Lemma sort_sorted l :
  Forall (λ y, isNumeric (c_index y)) l →
  StronglySorted index_le (sort compareIndex l).
Proof.
  unfold sort. induction l as [|x l IH]; intros Hl; simpl; [constructor|].
  inversion_clear Hl. apply sort_insert_sorted; [done| |by apply IH].
  fold (sort compareIndex l). by rewrite sort_Permutation.
Qed.


End sort_facts.

(** Unique keys of a map that is written out. *)
Ltac solve_NoDup :=
  refine (bool_decide_unpack _ _); vm_compute; exact I.

(** ** The child index builder is correct *)

Lemma elem_of_childrenOf e k (m : nodeMap) :
  e ∈ childrenOf k m ↔
  ∃ c n, (c, n) ∈ m ∧ toKey (parentContextPath n) = k
         ∧ e = mkChildRef c (nodeType n) (index n).
Proof.
  unfold childrenOf. rewrite list_elem_of_fmap. split.
  - intros [[c n] [-> Hin]]. apply list_elem_of_filter in Hin as [Hp Hin].
    by exists c, n.
  - intros (c & n & Hin & Hp & ->). exists (c, n). split; [done|].
    by apply list_elem_of_filter.
Qed.



(** ** Facts about [$set] below a key *)

Section nm_update_facts.
Implicit Types (m : nodeMap) (k : string) (n : node).

Lemma keys_nm_update_in k f m : k ∈ keys m → keys (nm_update k f m) = keys m.
Proof.
  unfold keys. induction m as [|[k' n'] m IH]; csimpl.
  - intros H. by apply elem_of_nil in H.
  - case_decide; subst; csimpl; [done|].
    intros [?|?]%elem_of_cons; [done|]. f_equal. auto.
Qed.

Lemma keys_nm_update_notin k f m :
  k ∉ keys m → keys (nm_update k f m) = keys m ++ [k].
Proof.
  unfold keys. induction m as [|[k' n'] m IH]; csimpl; [done|].
  rewrite not_elem_of_cons. intros [Hne Hk].
  rewrite decide_False by done. csimpl. f_equal. auto.
Qed.

Lemma NoDup_nm_update k f m : NoDup (keys m) → NoDup (keys (nm_update k f m)).
Proof.
  intros Hnd. destruct (decide (k ∈ keys m)).
  - by rewrite keys_nm_update_in.
  - rewrite keys_nm_update_notin by done.
    apply NoDup_app. split; [done|]. split; [|apply NoDup_singleton].
    intros x Hx ->%list_elem_of_singleton. done.
Qed.

Lemma nm_get_nm_update k' k f m :
  nm_get k' (nm_update k f m)
  = if decide (k' = k) then Some (f (nm_get k m)) else nm_get k' m.
Proof.
  induction m as [|[k0 n0] m IH]; simpl.
  - repeat case_decide; simplify_eq; done.
  - destruct (decide (k = k0)) as [->|]; simpl.
    + repeat case_decide; simplify_eq; done.
    + rewrite IH. repeat case_decide; simplify_eq; done.
Qed.

Lemma nm_update_id k f m n :
  nm_get k m = Some n → f (Some n) = n → nm_update k f m = m.
Proof.
  induction m as [|[k0 n0] m IH]; simpl; [done|].
  case_decide; subst.
  - intros [= ->] ->. done.
  - intros. f_equal. auto.
Qed.

Lemma nm_update_twice k f g m :
  nm_update k g (nm_update k f m) = nm_update k (λ e, g (Some (f e))) m.
Proof.
  induction m as [|[k0 n0] m IH]; simpl.
  - by rewrite decide_True.
  - case_decide; subst; simpl.
    + by rewrite decide_True.
    + rewrite decide_False by done. by rewrite IH.
Qed.

Lemma nm_update_comm k1 k2 f g m :
  k1 ≠ k2 → k1 ∈ keys m →
  nm_update k1 f (nm_update k2 g m) = nm_update k2 g (nm_update k1 f m).
Proof.
  unfold keys. intros Hne. induction m as [|[k0 n0] m IH]; csimpl.
  - intros H. by apply elem_of_nil in H.
  - intros Hin. destruct (decide (k1 = k0)) as [->|Hk1].
    + rewrite (decide_False (P := k2 = k0)) by done. simpl.
      rewrite decide_True by done. by rewrite decide_False by done.
    + apply elem_of_cons in Hin as [?|Hin]; [done|].
      destruct (decide (k2 = k0)) as [->|Hk2]; simpl.
      * rewrite decide_False by done. by rewrite decide_True by done.
      * rewrite !decide_False by done. f_equal. auto.
Qed.

Lemma elem_keys_nm_update k f m : k ∈ keys (nm_update k f m).
Proof.
  apply nm_get_is_Some. rewrite nm_get_nm_update, decide_True by done.
  by eexists.
Qed.

Lemma elem_keys_nm_update_mono k k' f m :
  k ∈ keys m → k ∈ keys (nm_update k' f m).
Proof.
  intros Hin. destruct (decide (k' ∈ keys m)).
  - by rewrite keys_nm_update_in.
  - rewrite keys_nm_update_notin by done. apply elem_of_app. by left.
Qed.

Lemma elem_keys_nm_update_iff k k' f m :
  k ∈ keys (nm_update k' f m) ↔ k ∈ keys m ∨ k = k'.
Proof.
  destruct (decide (k' ∈ keys m)) as [Hin|Hnotin].
  - rewrite keys_nm_update_in by done. split; [by left|].
    by intros [?| ->].
  - rewrite keys_nm_update_notin by done.
    rewrite elem_of_app, list_elem_of_singleton. done.
Qed.
End nm_update_facts.

(** ** The builder reads the records without their [children] *)

Section strip_facts.
Implicit Types (m : nodeMap) (k : string) (n : node).

Lemma stripMap_kmap m : stripMap m = kmap (λ _, strip) m.
Proof.
  unfold stripMap, kmap. apply Forall_fmap_ext_1, Forall_forall.
  by intros [k n] _.
Qed.

Lemma childrenOf_strip k m : childrenOf k (stripMap m) = childrenOf k m.
Proof.
  unfold childrenOf, stripMap. induction m as [|[k' n'] m IH]; csimpl; [done|].
  rewrite !filter_cons. simpl. case_decide; csimpl; by rewrite IH.
Qed.

Lemma rebuilt_strip m : rebuilt (stripMap m) = rebuilt m.
Proof.
  unfold rebuilt.
  transitivity
    (kmap (λ k, set_children (Some (sort compareIndex (childrenOf k m))))
       (stripMap m)).
  { apply kmap_ext. intros k n _. by rewrite childrenOf_strip. }
  rewrite stripMap_kmap, kmap_kmap. by apply kmap_ext.
Qed.

Lemma rebuilt_congr m m' : stripMap m = stripMap m' → rebuilt m = rebuilt m'.
Proof. intros H. by rewrite <- (rebuilt_strip m), H, rebuilt_strip. Qed.

Lemma stripMap_rebuilt m : stripMap (rebuilt m) = stripMap m.
Proof.
  rewrite (stripMap_kmap m), (stripMap_kmap (rebuilt m)).
  unfold rebuilt. rewrite kmap_kmap. by apply kmap_ext.
Qed.

Lemma rebuilt_idemp m : rebuilt (rebuilt m) = rebuilt m.
Proof. apply rebuilt_congr, stripMap_rebuilt. Qed.

Lemma keys_rebuilt m : keys (rebuilt m) = keys m.
Proof. apply keys_kmap. Qed.

Lemma keys_stripMap m : keys (stripMap m) = keys m.
Proof. rewrite stripMap_kmap. apply keys_kmap. Qed.

Lemma nm_get_rebuilt k m :
  nm_get k (rebuilt m)
  = set_children (Some (sort compareIndex (childrenOf k m))) <$> nm_get k m.
Proof. apply nm_get_kmap. Qed.
End strip_facts.

(** ** Rounding to a double *)

Lemma toDouble_safe z : Z.abs z ≤ 2 ^ 53 → toDouble z = z.
Proof. intros H. unfold toDouble. by rewrite bool_decide_true. Qed.

Lemma even_sgn_mul s q : (s = 1 ∨ s = -1) → Z.even (s * q) = Z.even q.
Proof.
  intros [-> | ->].
  - by rewrite Z.mul_1_l.
  - replace (-1 * q) with (- q) by lia. apply Z.even_opp.
Qed.

Example toDouble_values :
  toDouble 9007199254740991 = 9007199254740991
  ∧ toDouble 9007199254740993 = 9007199254740992
  ∧ toDouble 9007199254740995 = 9007199254740996
  ∧ toDouble (-9007199254740993) = -9007199254740992
  ∧ toDouble 18014398509481986 = 18014398509481984.
Proof. by vm_compute. Qed.

Lemma toDouble_nearest z : nearestDouble z (toDouble z).
Proof.
  unfold toDouble. case_bool_decide as Ha; [by left|]. right.
  set (a := Z.abs z) in *.
  assert (2 ^ 53 < a) as Hbig by lia.
  assert (0 < a) as Hpos by lia.
  pose proof (Z.log2_spec a Hpos) as [Hlo Hhi].
  assert (53 ≤ Z.log2 a) as Hlog.
  { rewrite <- (Z.log2_pow2 53) by lia. apply Z.log2_le_mono. lia. }
  set (e := Z.log2 a - 52).
  assert (1 ≤ e) as He by (unfold e; lia).
  exists e. split; [done|].
  replace (e + 52) with (Z.log2 a) by (unfold e; lia).
  replace (e + 53) with (Z.succ (Z.log2 a)) by (unfold e; lia).
  split; [done|].
  assert (0 < 2 ^ e) as Hpe by (apply Z.pow_pos_nonneg; lia).
  assert (2 ^ e = 2 * 2 ^ (e - 1)) as Hhalf.
  { replace e with (Z.succ (e - 1)) at 1 by lia. apply Z.pow_succ_r. lia. }
  pose proof (Z.div_mod a (2 ^ e) ltac:(lia)) as Hdm.
  pose proof (Z.mod_pos_bound a (2 ^ e) Hpe) as Hr.
  set (q := a / 2 ^ e) in *. set (r := a mod 2 ^ e) in *.
  set (half := 2 ^ (e - 1)) in *.
  set (q' := if bool_decide (r < half) then q
             else if bool_decide (half < r) then q + 1
             else if Z.even q then q else q + 1).
  assert (Z.sgn z = 1 ∧ a = z ∨ Z.sgn z = -1 ∧ a = - z) as Hs.
  { unfold a. destruct z; simpl in *; lia. }
  assert (Z.abs (Z.sgn z * (q' * 2 ^ e) - z) = Z.abs (q' * 2 ^ e - a)) as Habs.
  { destruct Hs as [[-> ->] | [-> Haz]]; [f_equal; lia|].
    rewrite <- (Z.abs_opp (-1 * _ - z)). f_equal. lia. }
  split; [exists (Z.sgn z * q'); lia|].
  rewrite Habs.
  assert (Z.sgn z * (q' * 2 ^ e) / 2 ^ e = Z.sgn z * q') as ->.
  { rewrite Z.mul_assoc. apply Z.div_mul. lia. }
  rewrite even_sgn_mul by (destruct Hs as [[-> _] | [-> _]]; auto).
  unfold q'. repeat case_bool_decide.
  - split; [nia|]. intros. nia.
  - split; [nia|]. intros. nia.
  - assert (r = half) as Hrh by lia.
    destruct (Z.even q) eqn:Hev.
    + split; [nia|done].
    + split; [nia|]. intros _. rewrite Z.even_add, Hev. done.
Qed.

(** ** Moving a record *)

Lemma MOVE_rebuilt parentNodeContextPath src tgt position st :
  NoDup (keys (byContextPath st)) →
  MOVE parentNodeContextPath src tgt position st
  = Ok (set_byContextPath
          (rebuilt
             (withMoved src
                (if decide (position = "into") then IxNum 9007199254740991
                 else if decide (position = "before")
                      then js_sub (targetIndexOf tgt st) 1
                      else js_add (targetIndexOf tgt st) 1)
                (if decide (position = "into") then PStr tgt
                 else parentNodeContextPath tgt)
                st))
          st).
Proof.
  intros Hnd. unfold MOVE, targetIndexOf, withMoved, set_in_node.
  cbn [byContextPath set_byContextPath].
  rewrite nm_update_twice. cbn [default].
  rewrite populateChildren_rebuilt by (by apply NoDup_nm_update).
  simpl. by destruct (nm_get tgt (byContextPath st)).
Qed.

Lemma nm_get_withMoved src newIndex base st :
  nm_get src (withMoved src newIndex base st)
  = Some (set_parentContextPath base
            (set_index newIndex
               (default emptyNode (nm_get src (byContextPath st))))).
Proof. unfold withMoved. by rewrite nm_get_nm_update, decide_True. Qed.

Lemma movedTo_rebuilt st src newIndex base :
  NoDup (keys (byContextPath st)) →
  movedTo st src newIndex base
    (Ok (set_byContextPath (rebuilt (withMoved src newIndex base st)) st)).
Proof.
  intros Hnd. unfold movedTo. eexists _, _. split; [done|].
  cbn [byContextPath set_byContextPath].
  assert (NoDup (keys (withMoved src newIndex base st))) as HndM
    by (by apply NoDup_nm_update).
  split; [by rewrite nm_get_rebuilt, nm_get_withMoved|].
  split; [done|]. split; [done|].
  split.
  { intros k. rewrite nm_get_rebuilt.
    by destruct (nm_get k (withMoved src newIndex base st)). }
  split.
  { rewrite populateChildren_rebuilt by (by rewrite keys_rebuilt).
    by rewrite rebuilt_idemp. }
  split.
  { intros k. rewrite keys_rebuilt. apply elem_keys_nm_update_iff. }
  split; [|done].
  intros _. by apply populateChildren_rebuilt.
Qed.

(** C2: a move of [nodeToBeMoved] with respect to [targetNode] gives the
    moved record the index 9007199254740991 and the target as its parent
    when the position is [into], the index of the target minus 1 and
    the parent of the target when it is [before], the index of the
    target plus 1 and the parent of the target when it is [after],
    minus and plus being those of the doubles: on a target whose index
    reads as the number [z] the new index is the double nearest to
    [z - 1] or [z + 1], which is this very integer when it is at most
    [2^53] in size, and it is [NaN] on a target whose index is no
    number.  Every other field of every record is as it was, the lists
    of children of the new map are those that the builder makes of the
    whole map, and nothing else of the store changes.  The parent of
    the target is what [parentNodeContextPath] returns for it. *)
Theorem MOVE_index_and_parent parentNodeContextPath st nodeToBeMoved targetNode :
  NoDup (keys (byContextPath st)) →
  movedTo st nodeToBeMoved (IxNum 9007199254740991) (PStr targetNode)
    (MOVE parentNodeContextPath nodeToBeMoved targetNode "into" st)
  ∧ movedTo st nodeToBeMoved (js_sub (targetIndexOf targetNode st) 1)
      (parentNodeContextPath targetNode)
      (MOVE parentNodeContextPath nodeToBeMoved targetNode "before" st)
  ∧ movedTo st nodeToBeMoved (js_add (targetIndexOf targetNode st) 1)
      (parentNodeContextPath targetNode)
      (MOVE parentNodeContextPath nodeToBeMoved targetNode "after" st)
  ∧ (∀ z, ToNumber (targetIndexOf targetNode st) = Num z →
          ∃ below above,
            js_sub (targetIndexOf targetNode st) 1 = IxNum below
            ∧ js_add (targetIndexOf targetNode st) 1 = IxNum above
            ∧ nearestDouble (z - 1) below
            ∧ nearestDouble (z + 1) above
            ∧ (- 2 ^ 53 ≤ z - 1 ≤ 2 ^ 53 → below = z - 1)
            ∧ (- 2 ^ 53 ≤ z + 1 ≤ 2 ^ 53 → above = z + 1))
  ∧ (ToNumber (targetIndexOf targetNode st) = NaN →
       js_sub (targetIndexOf targetNode st) 1 = IxNaN
       ∧ js_add (targetIndexOf targetNode st) 1 = IxNaN).
Proof.
  intros Hnd. split; [|split; [|split; [|split]]].
  - rewrite MOVE_rebuilt by done. by apply movedTo_rebuilt.
  - rewrite MOVE_rebuilt by done. by apply movedTo_rebuilt.
  - rewrite MOVE_rebuilt by done. by apply movedTo_rebuilt.
  - intros z Hz. unfold js_sub, js_add. rewrite Hz.
    exists (toDouble (z - 1)), (toDouble (z + 1)).
    split; [done|]. split; [done|].
    split; [apply toDouble_nearest|]. split; [apply toDouble_nearest|].
    split; intros ?; apply toDouble_safe; lia.
  - intros Hz. unfold js_sub, js_add. by rewrite Hz.
Qed.

Lemma MOVE_index_and_parent_witness :
  NoDup (keys (byContextPath (storeOf siblings)))
  ∧ movedTo (storeOf siblings) "A" (IxNum 3) (PStr "P")
      (MOVE sampleParent "A" "B" "after" (storeOf siblings)).
Proof.
  assert (NoDup (keys (byContextPath (storeOf siblings)))) as Hnd by solve_NoDup.
  split; [done|].
  exact (proj1 (proj2 (proj2
           (MOVE_index_and_parent sampleParent (storeOf siblings) "A" "B" Hnd)))).
Defined.

(** The claim C2 as it stands fails where the sum is no double: [A] is
    moved into [B] and gets the index 9007199254740991, [C] is moved
    after [A] and gets 9007199254740992, and [B], moved after [C], gets
    9007199254740992 again, which is not the index of [C] plus 1. *)
Lemma MOVE_after_not_plus_one :
  ∃ st1 st2 st3 c b,
    MOVE sampleParent "A" "B" "into" (storeOf siblings) = Ok st1
    ∧ MOVE sampleParent "C" "A" "after" st1 = Ok st2
    ∧ nm_get "C" (byContextPath st2) = Some c
    ∧ index c = IxNum 9007199254740992
    ∧ MOVE sampleParent "B" "C" "after" st2 = Ok st3
    ∧ nm_get "B" (byContextPath st3) = Some b
    ∧ index b = IxNum 9007199254740992
    ∧ index b ≠ IxNum (9007199254740992 + 1).
Proof.
  eexists _, _, _, _, _.
  split; [vm_compute; reflexivity|].
  split; [vm_compute; reflexivity|].
  split; [vm_compute; reflexivity|].
  split; [reflexivity|].
  split; [vm_compute; reflexivity|].
  split; [vm_compute; reflexivity|].
  split; [reflexivity|].
  cbn. discriminate.
Qed.

(** C3: with the siblings [A], [B], [C] of indices 1, 2, 3 under [P],
    in this order in the map, moving [A] after [B] gives [A] the index
    3 and the parent [P], and the list of children of [P] becomes
    [B], [A], [C] with the indices 2, 3, 3. *)
Theorem MOVE_after_sibling parentNodeContextPath :
  parentNodeContextPath "B" = PStr "P" →
  ∃ st' a p cs,
    MOVE parentNodeContextPath "A" "B" "after" (storeOf siblings) = Ok st'
    ∧ nm_get "A" (byContextPath st') = Some a
    ∧ index a = IxNum 3
    ∧ parentContextPath a = PStr "P"
    ∧ nm_get "P" (byContextPath st') = Some p
    ∧ children p = Some cs
    ∧ c_contextPath <$> cs = ["B"; "A"; "C"]
    ∧ c_index <$> cs = [IxNum 2; IxNum 3; IxNum 3].
Proof.
  intros Hparent.
  rewrite MOVE_rebuilt by solve_NoDup.
  rewrite Hparent.
  eexists _, _, _, _. split; [reflexivity|].
  split; [vm_compute; reflexivity|].
  split; [reflexivity|]. split; [reflexivity|].
  split; [vm_compute; reflexivity|].
  split; [reflexivity|]. split; reflexivity.
Qed.

Lemma MOVE_after_sibling_witness :
  sampleParent "B" = PStr "P"
  ∧ ∃ st', MOVE sampleParent "A" "B" "after" (storeOf siblings) = Ok st'.
Proof.
  split; [reflexivity|].
  destruct (MOVE_after_sibling sampleParent eq_refl) as (st' & _ & _ & _ & H & _).
  by exists st'.
Defined.

(** C10: a move of a record with respect to another record, made
    twice, gives the store that the first move gives. *)
Theorem MOVE_idempotent parentNodeContextPath st nodeToBeMoved targetNode position :
  NoDup (keys (byContextPath st)) →
  nodeToBeMoved ≠ targetNode →
  ∃ st',
    MOVE parentNodeContextPath nodeToBeMoved targetNode position st = Ok st'
    ∧ MOVE parentNodeContextPath nodeToBeMoved targetNode position st' = Ok st'.
Proof.
  intros Hnd Hne. rewrite MOVE_rebuilt by done.
  eexists. split; [reflexivity|].
  set (newIndex := if decide (position = "into") then _ else _).
  set (base := if decide (position = "into") then _ else _).
  set (M := withMoved nodeToBeMoved newIndex base st).
  assert (NoDup (keys M)) as HndM by (by apply NoDup_nm_update).
  rewrite MOVE_rebuilt by (simpl; by rewrite keys_rebuilt).
  assert (targetIndexOf targetNode (set_byContextPath (rebuilt M) st)
          = targetIndexOf targetNode st) as ->.
  { unfold targetIndexOf. cbn [byContextPath set_byContextPath].
    rewrite nm_get_rebuilt. unfold M, withMoved.
    rewrite nm_get_nm_update, decide_False by done.
    by destruct (nm_get targetNode (byContextPath st)). }
  fold newIndex base.
  assert (withMoved nodeToBeMoved newIndex base (set_byContextPath (rebuilt M) st)
          = rebuilt M) as ->.
  { unfold withMoved at 1. cbn [byContextPath set_byContextPath].
    eapply nm_update_id.
    - rewrite nm_get_rebuilt. unfold M. rewrite nm_get_withMoved. reflexivity.
    - reflexivity. }
  by rewrite rebuilt_idemp.
Qed.

Lemma MOVE_idempotent_witness :
  NoDup (keys (byContextPath (storeOf siblings)))
  ∧ "A" ≠ "B"
  ∧ ∃ st',
      MOVE sampleParent "A" "B" "after" (storeOf siblings) = Ok st'
      ∧ MOVE sampleParent "A" "B" "after" st' = Ok st'.
Proof.
  assert (NoDup (keys (byContextPath (storeOf siblings)))) as Hnd by solve_NoDup.
  assert ("A" ≠ "B") as Hne by done.
  split; [done|]. split; [done|].
  exact (MOVE_idempotent sampleParent (storeOf siblings) "A" "B" "after" Hnd Hne).
Defined.

(** ** Searching and replacing in strings *)

Section string_facts.
Implicit Types (pat s : string).

Lemma splitAtFirst_unfold pat s :
  splitAtFirst pat s =
  if startsWith pat s then Some (EmptyString, dropChars (String.length pat) s)
  else match s with
       | EmptyString => None
       | String c s' =>
           match splitAtFirst pat s' with
           | Some (before, after) => Some (String c before, after)
           | None => None
           end
       end.
Proof. by destruct s. Qed.

Lemma append_String c s t : String c s +:+ t = String c (s +:+ t).
Proof. done. Qed.

Lemma startsWith_app pat a : startsWith pat (pat +:+ a) = true.
Proof.
  induction pat as [|c pat IH]; simpl; [done|].
  by rewrite bool_decide_eq_true_2, IH.
Qed.

Lemma startsWith_split pat s :
  startsWith pat s = true → s = pat +:+ dropChars (String.length pat) s.
Proof.
  revert s. induction pat as [|c pat IH]; intros [|d s]; simpl; try done.
  intros [Hc Hs]%andb_true_iff. apply bool_decide_eq_true in Hc as ->.
  rewrite append_String. f_equal. auto.
Qed.

Lemma splitAtFirst_Some pat s before after :
  splitAtFirst pat s = Some (before, after) → s = before +:+ pat +:+ after.
Proof.
  revert before. induction s as [|c s IH]; intros before;
    rewrite splitAtFirst_unfold; destruct (startsWith pat _) eqn:Hs.
  - intros [= <- <-]. by apply startsWith_split.
  - done.
  - intros [= <- <-]. by apply startsWith_split.
  - destruct (splitAtFirst pat s) as [[b0 a0]|]; [|done].
    intros [= <- <-]. rewrite append_String. f_equal. by apply IH.
Qed.

Lemma splitAtFirst_is_Some pat before after :
  is_Some (splitAtFirst pat (before +:+ pat +:+ after)).
Proof.
  induction before as [|c before IH]; rewrite splitAtFirst_unfold.
  - change (EmptyString +:+ pat +:+ after) with (pat +:+ after).
    by rewrite startsWith_app.
  - rewrite append_String. destruct (startsWith pat _); [done|].
    destruct IH as [[b0 a0] ->]. done.
Qed.

Lemma includes_contains pat s : includes pat s = true ↔ contains pat s.
Proof.
  unfold includes, contains. split.
  - destruct (splitAtFirst pat s) as [[b0 a0]|] eqn:Hs; [|done].
    intros _. exists b0, a0. by apply splitAtFirst_Some.
  - intros (before & after & ->).
    by destruct (splitAtFirst_is_Some pat before after) as [[b0 a0] ->].
Qed.

Lemma not_includes_contains pat s : includes pat s = false ↔ ¬ contains pat s.
Proof. rewrite <- includes_contains. by destruct (includes pat s). Qed.

(** The occurrence that is found is the first one. *)
Lemma splitAtFirst_first pat s before after before' after' :
  splitAtFirst pat s = Some (before, after) →
  s = before' +:+ pat +:+ after' →
  (String.length before ≤ String.length before')%nat.
Proof.
  revert before before'. induction s as [|c s IH]; intros before before';
    rewrite splitAtFirst_unfold; destruct (startsWith pat _) eqn:Hs.
  - intros [= <- <-] _. simpl. lia.
  - done.
  - intros [= <- <-] _. simpl. lia.
  - destruct (splitAtFirst pat s) as [[b0 a0]|] eqn:Hsp; [|done].
    intros [= <- <-]. destruct before' as [|d before'].
    + change (EmptyString +:+ pat +:+ after') with (pat +:+ after').
      intros Heq. rewrite Heq, startsWith_app in Hs. done.
    + rewrite append_String. intros [= <- Heq].
      specialize (IH b0 before' eq_refl Heq). simpl. lia.
Qed.

Lemma includes_nil pat c : includes (pat +:+ String c EmptyString) "" = false.
Proof. unfold includes. rewrite splitAtFirst_unfold. by destruct pat. Qed.

Lemma getSubstitution_plain matched before after r :
  plain r = true → getSubstitution matched before after r = r.
Proof.
  induction r as [|c r IH]; simpl; [done|].
  intros [Hc Hr]%andb_true_iff. apply bool_decide_eq_true in Hc.
  transitivity (String c (getSubstitution matched before after r));
    [|by rewrite IH].
  destruct c as [[] [] [] [] [] [] [] []]; try done.
Qed.

(** A replacement puts the text in the place of the first occurrence. *)
Lemma replace_plain pat r s before after :
  plain r = true → splitAtFirst pat s = Some (before, after) →
  replace pat r s = before +:+ r +:+ after.
Proof.
  intros Hr Hs. unfold replace. by rewrite Hs, getSubstitution_plain.
Qed.

Lemma replace_absent pat r s : ¬ contains pat s → replace pat r s = s.
Proof.
  intros Hs%not_includes_contains. unfold includes, replace in *.
  by destruct (splitAtFirst pat s).
Qed.

Lemma plain_app r1 r2 : plain (r1 +:+ r2) = plain r1 && plain r2.
Proof.
  induction r1 as [|c r1 IH]; [done|].
  rewrite append_String. simpl. rewrite IH. by rewrite andb_assoc.
Qed.

(** [replace] acts on the first occurrence of the pattern, and on
    nothing when there is none. *)
Lemma replace_firstReplacedBy pat r s :
  firstReplacedBy pat (λ before after, getSubstitution pat before after r)
    s (replace pat r s).
Proof.
  unfold replace. destruct (splitAtFirst pat s) as [[b0 a0]|] eqn:Hs.
  - left. exists b0, a0. split; [|done]. split.
    + by apply splitAtFirst_Some.
    + intros before' after' Heq. by eapply splitAtFirst_first.
  - right. split; [|done]. apply not_includes_contains.
    unfold includes. by rewrite Hs.
Qed.

Lemma replace_firstReplacedBy_plain pat r s :
  plain r = true → firstReplacedBy pat (λ _ _, r) s (replace pat r s).
Proof.
  intros Hr. destruct (replace_firstReplacedBy pat r s)
    as [(b0 & a0 & Hocc & ->)|[Hno ->]].
  - left. exists b0, a0. split; [done|]. by rewrite getSubstitution_plain.
  - by right.
Qed.
End string_facts.

(** ** Updating the uris *)

Section updateUri_facts.
Variables (oldUriFragment newUriFragment : string).
Implicit Types (m : nodeMap) (k : string) (n : node).

Lemma uriMatches_nil : uriMatches oldUriFragment "" = false.
Proof. unfold uriMatches. by rewrite !includes_nil. Qed.

Lemma updateUriOf_Some n k nodeUri :
  uri n = Some nodeUri → uriMatches oldUriFragment nodeUri = true →
  contextPath n = Some k →
  updateUriOf oldUriFragment newUriFragment n
  = Some (set_in_node k
            (set_uri (Some (rewrittenUri oldUriFragment newUriFragment nodeUri)))).
Proof.
  intros Hu Hm Hk. unfold updateUriOf. rewrite Hu, Hk.
  fold (uriMatches oldUriFragment nodeUri). rewrite Hm.
  rewrite bool_decide_eq_true_2; [done|].
  intros ->. by rewrite uriMatches_nil in Hm.
Qed.

Lemma updateUriOf_None n :
  withUpdatedUri oldUriFragment newUriFragment n = n
  ∧ (uri n = None ∨ ∃ u, uri n = Some u ∧ uriMatches oldUriFragment u = false) →
  updateUriOf oldUriFragment newUriFragment n = None.
Proof.
  intros [_ [Hu|(u & Hu & Hm)]]; unfold updateUriOf; rewrite Hu; [done|].
  fold (uriMatches oldUriFragment u). rewrite Hm. by rewrite andb_false_r.
Qed.

Lemma nm_update_app_notin k f pre m :
  k ∉ keys pre → nm_update k f (pre ++ m) = pre ++ nm_update k f m.
Proof.
  unfold keys. induction pre as [|[k' n'] pre IH]; simpl; [done|].
  rewrite not_elem_of_cons. intros [Hne Hk].
  rewrite decide_False by done. by rewrite IH.
Qed.

Lemma all_updateUri rest :
  ∀ pre st,
    byContextPath st = pre ++ rest →
    NoDup (keys (pre ++ rest)) →
    keyedByContextPath rest →
    all (omap (updateUriOf oldUriFragment newUriFragment) rest.*2) st
    = set_byContextPath
        (pre ++ kmap (λ _, withUpdatedUri oldUriFragment newUriFragment) rest) st.
Proof.
  induction rest as [|[k n] rest IH]; intros pre st Hst Hnd Hkeyed.
  - simpl. rewrite <- Hst. by destruct st.
  - inversion_clear Hkeyed as [|? ? Hk Hrest]. simpl in Hk.
    assert (k ∉ keys pre) as Hkpre.
    { unfold keys in *. rewrite fmap_app in Hnd.
      apply NoDup_app in Hnd as (_ & Hd & _).
      intros Hin. apply (Hd _ Hin). csimpl. apply list_elem_of_here. }
    assert (∀ n', NoDup (keys ((pre ++ [(k, n')]) ++ rest))) as Hnd'.
    { intros n'. rewrite <- app_assoc. simpl.
      unfold keys in *. by rewrite !fmap_app in *. }
    csimpl. unfold withUpdatedUri at 1.
    destruct (uri n) as [u|] eqn:Hu;
      [destruct (uriMatches oldUriFragment u) eqn:Hm|].
    + rewrite (updateUriOf_Some n k u); [|done|done|apply Hk; rewrite ?Hu; by eexists].
      simpl.
      set (n' := set_uri _ n).
      rewrite (cons_middle (k, n') pre), app_assoc.
      rewrite (IH (pre ++ [(k, n')]));
        [by destruct st|
         |done|done].
      unfold set_in_node. cbn [byContextPath set_byContextPath].
      rewrite Hst, nm_update_app_notin by done. simpl.
      rewrite decide_True by done. by rewrite <- app_assoc.
    + rewrite updateUriOf_None.
      2:{ split; [|right; by exists u].
          unfold withUpdatedUri. by rewrite Hu, Hm. }
      rewrite (cons_middle (k, n) pre), app_assoc.
      apply IH; [|done|done]. by rewrite <- app_assoc.
    + rewrite updateUriOf_None.
      2:{ split; [|by left]. unfold withUpdatedUri. by rewrite Hu. }
      rewrite (cons_middle (k, n) pre), app_assoc.
      apply IH; [|done|done]. by rewrite <- app_assoc.
Qed.

Lemma UPDATE_URI_kmap st :
  NoDup (keys (byContextPath st)) →
  keyedByContextPath (byContextPath st) →
  UPDATE_URI oldUriFragment newUriFragment st
  = set_byContextPath
      (kmap (λ _, withUpdatedUri oldUriFragment newUriFragment) (byContextPath st))
      st.
Proof.
  intros Hnd Hkeyed. unfold UPDATE_URI.
  by rewrite (all_updateUri (byContextPath st) [] st).
Qed.
End updateUri_facts.

(** C4, as the code has it: in a store whose records with a uri carry
    their key in their [contextPath] field, [UPDATE_URI] changes the
    record of every uri that has an occurrence of the old fragment
    followed by a slash or by an at sign, and no other record and no
    other field.  In such a uri the first occurrence of the old
    fragment with the at sign is replaced, and then, in what this
    gives, the first occurrence of the old fragment with the slash;
    later occurrences stay.  What is put in is the new fragment with
    the same sign, in which [replace] expands the dollar forms; for a
    new fragment without a dollar that is the new fragment itself.
    For the uris [/shop/shoes@live], [/shop/shoes/red@live] and
    [/shop/shoeshine@live] and the fragments [shop/shoes] and
    [shop/sneakers] the result is [/shop/sneakers@live],
    [/shop/sneakers/red@live] and [/shop/shoeshine@live]. *)
Theorem UPDATE_URI_rewrites :
  (∀ oldUriFragment newUriFragment st,
     NoDup (keys (byContextPath st)) →
     keyedByContextPath (byContextPath st) →
     let st' := UPDATE_URI oldUriFragment newUriFragment st in
     keys (byContextPath st') = keys (byContextPath st)
     ∧ st' = set_byContextPath (byContextPath st') st
     ∧ ∀ k n, (k, n) ∈ byContextPath st →
         ∃ n', nm_get k (byContextPath st') = Some n'
           ∧ match uri n with
             | Some nodeUri =>
                 (contains (oldUriFragment +:+ "/") nodeUri
                  ∨ contains (oldUriFragment +:+ "@") nodeUri →
                  ∃ u1 u',
                    firstReplacedBy (oldUriFragment +:+ "@")
                      (λ before after,
                         getSubstitution (oldUriFragment +:+ "@") before after
                           (newUriFragment +:+ "@"))
                      nodeUri u1
                    ∧ firstReplacedBy (oldUriFragment +:+ "/")
                        (λ before after,
                           getSubstitution (oldUriFragment +:+ "/") before after
                             (newUriFragment +:+ "/"))
                        u1 u'
                    ∧ n' = set_uri (Some u') n
                    ∧ (plain newUriFragment = true →
                       firstReplacedBy (oldUriFragment +:+ "@")
                         (λ _ _, newUriFragment +:+ "@") nodeUri u1
                       ∧ firstReplacedBy (oldUriFragment +:+ "/")
                           (λ _ _, newUriFragment +:+ "/") u1 u'))
                 ∧ (¬ (contains (oldUriFragment +:+ "/") nodeUri
                       ∨ contains (oldUriFragment +:+ "@") nodeUri) →
                    n' = n)
             | None => n' = n
             end)
  ∧ (byContextPath (UPDATE_URI "shop/shoes" "shop/sneakers" (storeOf shop))).*2
    = [ documentNode "/sites/shop/shoes@live" "/shop/sneakers@live";
        documentNode "/sites/shop/shoes/red@live" "/shop/sneakers/red@live";
        documentNode "/sites/shop/shoeshine@live" "/shop/shoeshine@live" ].
Proof.
  split; [|by vm_compute].
  intros old new st Hnd Hkeyed st'. unfold st'.
  rewrite UPDATE_URI_kmap by done. cbn [byContextPath set_byContextPath].
  split; [apply keys_kmap|]. split; [done|].
  intros k n Hin. exists (withUpdatedUri old new n).
  rewrite nm_get_kmap, (nm_get_elem _ _ _ Hnd Hin). split; [done|].
  unfold withUpdatedUri, uriMatches. destruct (uri n) as [u|]; [|done].
  rewrite <- !includes_contains. split.
  - intros Hm.
    assert (includes (old +:+ "/") u || includes (old +:+ "@") u = true) as ->.
    { destruct Hm as [-> | ->]; [done|]. by rewrite orb_true_r. }
    exists (replace (old +:+ "@") (new +:+ "@") u), (rewrittenUri old new u).
    split; [apply replace_firstReplacedBy|].
    split; [apply replace_firstReplacedBy|].
    split; [done|].
    intros Hplain.
    split; apply replace_firstReplacedBy_plain;
      by rewrite plain_app, Hplain.
  - intros H. destruct (includes _ u), (includes _ u); try done; tauto.
Qed.

Lemma UPDATE_URI_rewrites_witness :
  NoDup (keys (byContextPath (storeOf shop)))
  ∧ keyedByContextPath (byContextPath (storeOf shop))
  ∧ keys (byContextPath (UPDATE_URI "shop/shoes" "shop/sneakers" (storeOf shop)))
    = keys (byContextPath (storeOf shop)).
Proof.
  assert (NoDup (keys (byContextPath (storeOf shop)))) as Hnd by solve_NoDup.
  assert (keyedByContextPath (byContextPath (storeOf shop))) as Hkeyed.
  { unfold keyedByContextPath, storeOf, shop. simpl.
    repeat (apply Forall_cons; split; [by intros _|]). apply Forall_nil_2. }
  split; [done|]. split; [done|].
  exact (proj1 (proj1 UPDATE_URI_rewrites "shop/shoes" "shop/sneakers"
                  (storeOf shop) Hnd Hkeyed)).
Defined.

(** The claim C4 as it stands fails in three ways.  A uri with two
    occurrences of the old fragment in front of a slash keeps the
    second one.  A dollar form in the new fragment is expanded, so what
    is put in is not the new fragment.  And the record that is written
    is the one that the [contextPath] field of the matching record
    names, so a record stored under another key keeps its uri. *)
Lemma UPDATE_URI_not_every_occurrence :
  (byContextPath (UPDATE_URI "shoes" "boots" (storeOf nestedShoes))).*2
  = [ documentNode "/sites/shoes/shoes/red@live" "/boots/shoes/red@live" ]
  ∧ contains ("shoes" +:+ "/") "/boots/shoes/red@live"
  ∧ (byContextPath (UPDATE_URI "shop/shoes" "x$&" (storeOf shop))).*2
    = [ documentNode "/sites/shop/shoes@live" "/xshop/shoes@@live";
        documentNode "/sites/shop/shoes/red@live" "/xshop/shoes//red@live";
        documentNode "/sites/shop/shoeshine@live" "/shop/shoeshine@live" ]
  ∧ byContextPath (UPDATE_URI "shoes" "boots" (storeOf misfiled))
    = [ ("/sites/a@live", documentNode "/sites/b@live" "/shoes@live");
        ("/sites/b@live", set_uri (Some "/boots@live") emptyNode) ].
Proof.
  split; [by vm_compute|].
  split; [by exists "/boots/", "red@live"|].
  split; by vm_compute.
Qed.

(** ** Removing a record *)

Section nm_delete_facts.
Implicit Types (m : nodeMap) (k : string) (n : node).

Lemma keys_nm_delete k m :
  keys (nm_delete k m) = filter (λ k', k' ≠ k) (keys m).
Proof.
  unfold keys, nm_delete. induction m as [|[k' n'] m IH]; csimpl; [done|].
  rewrite !filter_cons. simpl. case_decide; csimpl; by rewrite IH.
Qed.

Lemma NoDup_nm_delete k m : NoDup (keys m) → NoDup (keys (nm_delete k m)).
Proof. intros H. rewrite keys_nm_delete. by apply NoDup_filter. Qed.

Lemma nm_get_nm_delete k' k m :
  nm_get k' (nm_delete k m) = if decide (k' = k) then None else nm_get k' m.
Proof.
  unfold nm_delete. induction m as [|[k0 n0] m IH]; simpl.
  - by case_decide.
  - rewrite filter_cons. simpl.
    destruct (decide (k0 ≠ k)) as [Hne|Heq%dec_stable]; simpl.
    + rewrite IH. repeat case_decide; simplify_eq; done.
    + subst k0. rewrite IH. repeat case_decide; simplify_eq; done.
Qed.

Lemma elem_of_nm_delete k' n k m :
  (k', n) ∈ nm_delete k m ↔ k' ≠ k ∧ (k', n) ∈ m.
Proof. unfold nm_delete. by rewrite list_elem_of_filter. Qed.
End nm_delete_facts.

(** C8: [REMOVE] of a context path deletes that key and changes nothing
    else, in every store and for every context path: the keys of the
    map are those it had but the given one, every other key reads the
    record it read before, fields and [children] list included, and the
    rest of the store is as it was.  So the builder has not run, and a
    child [C] of the removed [P] is still there, as it was; when the
    builder runs next, [C] is in no [children] list. *)
Theorem REMOVE_single_key st P :
  let st' := REMOVE P st in
  (∀ k, k ∈ keys (byContextPath st') ↔ k ∈ keys (byContextPath st) ∧ k ≠ P)
  ∧ (∀ k n, (k, n) ∈ byContextPath st' ↔ (k, n) ∈ byContextPath st ∧ k ≠ P)
  ∧ nm_get P (byContextPath st') = None
  ∧ (∀ k, k ≠ P → nm_get k (byContextPath st') = nm_get k (byContextPath st))
  ∧ st' = set_byContextPath (byContextPath st') st
  ∧ (NoDup (keys (byContextPath st)) →
     NoDup (keys (byContextPath st'))
     ∧ ∀ C nc,
         nm_get C (byContextPath st) = Some nc →
         parentContextPath nc = PStr P →
         C ≠ P →
         nm_get C (byContextPath st') = Some nc
         ∧ ∃ m', populateChildren (Some (byContextPath st')) = Ok m'
                 ∧ keys m' = keys (byContextPath st')
                 ∧ ∀ k n, (k, n) ∈ m' →
                     ∃ cs, children n = Some cs ∧ C ∉ c_contextPath <$> cs).
Proof.
  intros st'. unfold st', REMOVE.
  cbn [byContextPath set_byContextPath].
  split.
  { intros k. rewrite keys_nm_delete, list_elem_of_filter. tauto. }
  split.
  { intros k n. rewrite elem_of_nm_delete. tauto. }
  split; [by rewrite nm_get_nm_delete, decide_True|].
  split; [intros k Hk; by rewrite nm_get_nm_delete, decide_False|].
  split; [done|].
  intros Hnd. split; [by apply NoDup_nm_delete|].
  intros C nc HC Hparent Hne.
  split; [by rewrite nm_get_nm_delete, decide_False|].
  exists (rebuilt (nm_delete P (byContextPath st))).
  split; [by apply populateChildren_rebuilt, NoDup_nm_delete|].
  split; [apply keys_rebuilt|].
  intros k n Hin. apply elem_of_kmap in Hin as [n0 [Hin0 ->]].
  eexists. split; [done|].
  intros [e [-> He]]%list_elem_of_fmap.
  rewrite sort_Permutation in He.
  apply elem_of_childrenOf in He as (c & n1 & Hin1 & Hp & ->). simpl in *.
  apply elem_of_nm_delete in Hin1 as [_ Hin1].
  apply elem_of_nm_delete in Hin0 as [Hk _].
  apply (nm_get_elem _ _ _ Hnd) in Hin1. rewrite HC in Hin1.
  injection Hin1 as <-. rewrite Hparent in Hp. simpl in Hp. by subst k.
Qed.

Lemma REMOVE_single_key_witness :
  NoDup (keys (byContextPath (storeOf family)))
  ∧ nm_get "C" (byContextPath (storeOf family))
    = Some (set_children (Some []) (sampleNode (PStr "P") 1))
  ∧ "C" ≠ "P"
  ∧ nm_get "C" (byContextPath (REMOVE "P" (storeOf family)))
    = Some (set_children (Some []) (sampleNode (PStr "P") 1)).
Proof.
  assert (NoDup (keys (byContextPath (storeOf family)))) as Hnd by solve_NoDup.
  assert ("C" ≠ "P") as Hne by done.
  split; [done|]. split; [reflexivity|]. split; [done|].
  exact (proj1 (proj2 (proj2 (proj2 (proj2 (proj2 (proj2
           (REMOVE_single_key (storeOf family) "P"))))) Hnd) "C" _
           eq_refl eq_refl Hne)).
Defined.

(** ** The keys of the map *)

Lemma keys_all_updateUri oldUriFragment newUriFragment (nodes : list node) :
  ∀ st,
    Forall (λ n, is_Some (uri n) →
                 ∃ c, contextPath n = Some c ∧ c ∈ keys (byContextPath st)) nodes →
    keys (byContextPath (all (omap (updateUriOf oldUriFragment newUriFragment) nodes) st))
    = keys (byContextPath st).
Proof.
  induction nodes as [|n nodes IH]; intros st Hall; [done|].
  inversion_clear Hall as [|? ? Hn Hrest]. csimpl.
  destruct (updateUriOf oldUriFragment newUriFragment n) as [effect|] eqn:He;
    [|by apply IH].
  unfold updateUriOf in He. destruct (uri n) as [u|] eqn:Hu; [|done].
  destruct Hn as (c & Hc & Hin); [done|]. rewrite Hc in He. simpl in He.
  case_match; [|done]. injection He as <-. simpl.
  assert (keys (byContextPath
                  (set_in_node c
                     (set_uri (Some (replace (oldUriFragment +:+ "/")
                                       (newUriFragment +:+ "/")
                                       (replace (oldUriFragment +:+ "@")
                                          (newUriFragment +:+ "@") u)))) st))
          = keys (byContextPath st)) as Hkeys.
  { unfold set_in_node. cbn [byContextPath set_byContextPath].
    by apply keys_nm_update_in. }
  unfold all in IH. rewrite IH; [done|]. by rewrite Hkeys.
Qed.

Lemma keys_mono_all_updateUri oldUriFragment newUriFragment (nodes : list node) k :
  ∀ st,
    k ∈ keys (byContextPath st) →
    k ∈ keys (byContextPath
                (all (omap (updateUriOf oldUriFragment newUriFragment) nodes) st)).
Proof.
  induction nodes as [|n nodes IH]; intros st Hin; [done|]. csimpl.
  destruct (updateUriOf oldUriFragment newUriFragment n) as [effect|] eqn:He;
    [|by apply IH].
  unfold updateUriOf in He. destruct (uri n) as [u|]; [|done].
  case_match; [|done]. injection He as <-. simpl.
  unfold all in IH. apply IH. unfold set_in_node.
  cbn [byContextPath set_byContextPath]. by apply elem_keys_nm_update_mono.
Qed.

Lemma keys_iff_all_updateUri oldUriFragment newUriFragment (nodes : list node) k :
  ∀ st,
    k ∈ keys (byContextPath
                (all (omap (updateUriOf oldUriFragment newUriFragment) nodes) st))
    ↔ k ∈ keys (byContextPath st) ∨ k ∈ omap (uriWrittenUnder oldUriFragment) nodes.
Proof.
  induction nodes as [|n nodes IH]; intros st.
  - simpl. rewrite elem_of_nil. tauto.
  - csimpl. unfold updateUriOf, uriWrittenUnder at 1, uriMatches.
    destruct (uri n) as [u|] eqn:Hu; [|apply IH].
    destruct (decide (u = "")) as [->|Hne].
    + rewrite !includes_nil. simpl. apply IH.
    + rewrite bool_decide_eq_true_2 by done. simpl.
      destruct (includes (oldUriFragment +:+ "/") u
                || includes (oldUriFragment +:+ "@") u); [|apply IH].
      simpl. unfold all in IH. rewrite IH. unfold set_in_node.
      cbn [byContextPath set_byContextPath].
      rewrite elem_keys_nm_update_iff, elem_of_cons. tauto.
Qed.

(** C7, as the code has it: an action that sets the focus, the
    clipboard or the removal mark, a [MOVE], a [HIDE], a [SHOW] and an
    [UPDATE_URI] never delete a key of the map, whatever context paths
    they name, and the keys of the map are afterwards those it had
    together with the context paths that the action writes under: the
    moved record for [MOVE], the record named for [HIDE] and [SHOW],
    and for [UPDATE_URI] what the [contextPath] field reads of every
    record whose uri matches the old fragment; the other actions write
    under none.  So a key is added exactly when such a context path is
    not a key of the map, and the keys stay as they are when every
    context path written under is one. *)
Theorem keys_preserved parentNodeContextPath st a :
  NoDup (keys (byContextPath st)) →
  namedKeyPreserving a →
  ∃ st',
    reducer parentNodeContextPath st a = Ok st'
    ∧ (∀ k, k ∈ keys (byContextPath st) → k ∈ keys (byContextPath st'))
    ∧ (writesUnderKey st a → keys (byContextPath st') = keys (byContextPath st))
    ∧ (∀ k, k ∈ keys (byContextPath st')
            ↔ k ∈ keys (byContextPath st) ∨ k ∈ writtenKeys st a).
Proof.
  intros Hnd Hnamed.
  assert (∀ k (l : list string), k ∈ l ↔ k ∈ l ∨ k ∈ @nil string) as Hnil.
  { intros k l. rewrite elem_of_nil. tauto. }
  destruct a; try done; simpl in *;
    try (eexists; split; [done|]; split; [done|]; split; [done|];
         intros k; apply Hnil).
  - rewrite MOVE_rebuilt by done. eexists. split; [done|].
    cbn [byContextPath set_byContextPath]. rewrite keys_rebuilt. unfold withMoved.
    split; [intros k Hk; by apply elem_keys_nm_update_mono|].
    split; [intros Hkey; by apply keys_nm_update_in|].
    intros k. by rewrite elem_keys_nm_update_iff, list_elem_of_singleton.
  - eexists. split; [done|]. unfold HIDE, set_in_node.
    cbn [byContextPath set_byContextPath].
    split; [intros k Hk; by apply elem_keys_nm_update_mono|].
    split; [intros Hkey; by apply keys_nm_update_in|].
    intros k. by rewrite elem_keys_nm_update_iff, list_elem_of_singleton.
  - eexists. split; [done|]. unfold SHOW, set_in_node.
    cbn [byContextPath set_byContextPath].
    split; [intros k Hk; by apply elem_keys_nm_update_mono|].
    split; [intros Hkey; by apply keys_nm_update_in|].
    intros k. by rewrite elem_keys_nm_update_iff, list_elem_of_singleton.
  - eexists. split; [done|]. unfold UPDATE_URI.
    split; [intros k Hk; by apply keys_mono_all_updateUri|].
    split; [intros Hkey; by apply keys_all_updateUri|].
    intros k. apply keys_iff_all_updateUri.
Qed.

Lemma keys_preserved_witness :
  NoDup (keys (byContextPath (storeOf siblings)))
  ∧ namedKeyPreserving (actions.hide "A")
  ∧ writesUnderKey (storeOf siblings) (actions.hide "A")
  ∧ ∃ st',
      reducer sampleParent (storeOf siblings) (actions.hide "A") = Ok st'
      ∧ keys (byContextPath st') = keys (byContextPath (storeOf siblings)).
Proof.
  assert (NoDup (keys (byContextPath (storeOf siblings)))) as Hnd by solve_NoDup.
  assert (writesUnderKey (storeOf siblings) (actions.hide "A")) as Hkey.
  { simpl. apply (bool_decide_unpack _). by vm_compute. }
  split; [done|]. split; [exact I|]. split; [done|].
  destruct (keys_preserved sampleParent (storeOf siblings) (actions.hide "A") Hnd I)
    as (st' & Hst' & _ & Hkeys & _).
  exists st'. split; [done|]. by apply Hkeys.
Defined.

(** C7 as it is stated fails: hiding a context path that is not a key
    of the map makes a record under it. *)
Lemma HIDE_creates_record :
  ¬ (∀ parentNodeContextPath st a st',
       NoDup (keys (byContextPath st)) →
       namedKeyPreserving a →
       reducer parentNodeContextPath st a = Ok st' →
       keys (byContextPath st') = keys (byContextPath st)).
Proof.
  intros H.
  specialize (H sampleParent (storeOf siblings) (actions.hide "/sites/gone@live") _
                ltac:(solve_NoDup) I eq_refl).
  vm_compute in H. discriminate H.
Qed.

(** ** Merging maps of records *)

Section mergeDeep_facts.
Implicit Types (m p : nodeMap) (k : string) (v : node).

Lemma mergeDeep_cons m k v p :
  mergeDeep m ((k, v) :: p) = mergeDeep (nm_update k (mergeInto v) m) p.
Proof. done. Qed.

Lemma keys_jsonRoundTrip m : keys (jsonRoundTrip m) = keys m.
Proof.
  unfold keys, jsonRoundTrip. rewrite <- list_fmap_compose.
  apply Forall_fmap_ext_1, Forall_forall. by intros [k n] _.
Qed.

Lemma NoDup_mergeDeep p : ∀ m, NoDup (keys m) → NoDup (keys (mergeDeep m p)).
Proof.
  induction p as [|[k v] p IH]; intros m Hnd; [done|].
  rewrite mergeDeep_cons. by apply IH, NoDup_nm_update.
Qed.

Lemma nm_update_ext k f g m :
  (∀ e, f e = g e) → nm_update k f m = nm_update k g m.
Proof.
  intros H. induction m as [|[k' n'] m IH]; simpl; [by rewrite H|].
  case_decide; [by rewrite H | by rewrite IH].
Qed.

Lemma mergeDeep_childRef_idemp (x y : childRef) :
  mergeDeep_childRef (mergeDeep_childRef x y) y = mergeDeep_childRef x y.
Proof. done. Qed.

Lemma mergeDeep_childRef_diag (y : childRef) : mergeDeep_childRef y y = y.
Proof. by destruct y. Qed.

Lemma mergeDeep_list_idemp (ce cv : list childRef) :
  mergeDeep_list (mergeDeep_list ce cv) cv = mergeDeep_list ce cv.
Proof.
  revert cv. induction ce as [|x ce IH]; intros [|y cv]; simpl; try done.
  - f_equal; [apply mergeDeep_childRef_diag|].
    clear. induction cv as [|y cv IH]; simpl; [done|].
    by rewrite mergeDeep_childRef_diag, IH.
  - by rewrite mergeDeep_childRef_idemp, IH.
Qed.

Lemma mergeDeep_list_diag (cv : list childRef) : mergeDeep_list cv cv = cv.
Proof.
  induction cv as [|y cv IH]; simpl; [done|].
  by rewrite mergeDeep_childRef_diag, IH.
Qed.

Lemma mergeDeep_node_idemp (e v : node) :
  mergeDeep_node (mergeDeep_node e v) v = mergeDeep_node e v.
Proof.
  destruct e as [ec ep et ei epr eu ech], v as [vc vp vt vi vpr vu vch].
  unfold mergeDeep_node. simpl. f_equal.
  - by destruct vc.
  - by destruct vp.
  - by destruct vt.
  - by destruct vi.
  - destruct epr as [pe|], vpr as [pv|]; simpl; try done.
    + by rewrite (assoc_L (∪)), (idemp_L (∪)).
    + by rewrite (idemp_L (∪)).
  - by destruct vu.
  - destruct ech as [ce|], vch as [cv|]; simpl; try done.
    + by rewrite mergeDeep_list_idemp.
    + by rewrite mergeDeep_list_diag.
Qed.

Lemma mergeDeep_node_diag v : mergeDeep_node v v = v.
Proof.
  destruct v as [vc vp vt vi vpr vu vch].
  unfold mergeDeep_node. simpl. f_equal.
  - by destruct vc.
  - by destruct vp.
  - by destruct vt.
  - by destruct vi.
  - destruct vpr as [pv|]; simpl; [|done]. by rewrite (idemp_L (∪)).
  - by destruct vu.
  - destruct vch as [cv|]; simpl; [|done]. by rewrite mergeDeep_list_diag.
Qed.

Lemma mergeInto_idemp v (e : option node) :
  mergeInto v (Some (mergeInto v e)) = mergeInto v e.
Proof.
  destruct e as [e|]; simpl;
    [apply mergeDeep_node_idemp | apply mergeDeep_node_diag].
Qed.

Lemma mergeDeep_nm_update_comm k f p :
  ∀ m, k ∈ keys m → k ∉ keys p →
       nm_update k f (mergeDeep m p) = mergeDeep (nm_update k f m) p.
Proof.
  induction p as [|[k2 v2] p IH]; intros m Hin Hk; [done|].
  unfold keys in Hk. csimpl in Hk. apply not_elem_of_cons in Hk as [Hne Hk].
  rewrite !mergeDeep_cons.
  rewrite IH; [|by apply elem_keys_nm_update_mono|done].
  by rewrite nm_update_comm.
Qed.

(** Merging the same map of records in twice is merging it in once. *)
Lemma mergeDeep_idemp p :
  NoDup (keys p) → ∀ m, mergeDeep (mergeDeep m p) p = mergeDeep m p.
Proof.
  induction p as [|[k v] p IH]; intros Hnd m; [done|].
  unfold keys in Hnd. csimpl in Hnd. apply NoDup_cons in Hnd as [Hk Hnd].
  rewrite !mergeDeep_cons.
  rewrite mergeDeep_nm_update_comm; [|apply elem_keys_nm_update|done].
  rewrite nm_update_twice.
  rewrite (nm_update_ext k _ (mergeInto v)) by apply mergeInto_idemp.
  by apply IH.
Qed.

Lemma strip_mergeInto v (e e' : option node) :
  strip <$> e = strip <$> e' → strip (mergeInto v e) = strip (mergeInto v e').
Proof.
  destruct e as [e|], e' as [e'|]; simpl; try done.
  intros [= Hc Hp Ht Hi Hpr Hu]. unfold strip, set_children, mergeDeep_node.
  simpl. by rewrite Hc, Hp, Ht, Hi, Hpr, Hu.
Qed.

Lemma stripMap_nm_update k f m :
  (∀ e e', strip <$> e = strip <$> e' → strip (f e) = strip (f e')) →
  ∀ m', stripMap m = stripMap m' →
        stripMap (nm_update k f m) = stripMap (nm_update k f m').
Proof.
  intros Hf. unfold stripMap.
  induction m as [|[k0 n0] m IH]; intros [|[k0' n0'] m']; csimpl; try done.
  intros Heq. apply (inj2 cons) in Heq as [Hpair Hm].
  pose proof (f_equal fst Hpair) as Hk. pose proof (f_equal snd Hpair) as Hn.
  cbn [fst snd prod_map id] in Hk, Hn. subst k0'. clear Hpair.
  case_decide; csimpl.
  - f_equal; [|done]. f_equal. apply Hf. simpl. by f_equal.
  - f_equal; [by f_equal|]. by apply IH.
Qed.

Lemma stripMap_mergeDeep p :
  ∀ m m', stripMap m = stripMap m' →
          stripMap (mergeDeep m p) = stripMap (mergeDeep m' p).
Proof.
  induction p as [|[k v] p IH]; intros m m' H; [done|].
  rewrite !mergeDeep_cons. apply IH.
  apply stripMap_nm_update; [apply strip_mergeInto | done].
Qed.

Lemma ADD_rebuilt nodeMap st :
  NoDup (keys (byContextPath st)) →
  ADD nodeMap st
  = Ok (set_byContextPath
          (rebuilt (mergeDeep (byContextPath st) (jsonRoundTrip nodeMap))) st).
Proof.
  intros Hnd. unfold ADD. cbn [byContextPath set_byContextPath].
  by rewrite populateChildren_rebuilt by (by apply NoDup_mergeDeep).
Qed.
End mergeDeep_facts.

Lemma nm_get_jsonRoundTrip k (p : nodeMap) :
  nm_get k (jsonRoundTrip p) = json_node <$> nm_get k p.
Proof.
  unfold jsonRoundTrip. induction p as [|[k' n'] p IH]; simpl; [done|].
  case_decide; [done | apply IH].
Qed.

Lemma nm_get_mergeDeep k (p : nodeMap) :
  NoDup (keys p) →
  ∀ m : nodeMap,
    nm_get k (mergeDeep m p)
    = match nm_get k p with
      | Some v => Some (mergeInto v (nm_get k m))
      | None => nm_get k m
      end.
Proof.
  induction p as [|[k0 v0] p IH]; intros Hnd m; [done|].
  unfold keys in Hnd. csimpl in Hnd. apply NoDup_cons in Hnd as [Hk0 Hnd].
  rewrite mergeDeep_cons, IH by done. simpl.
  rewrite !nm_get_nm_update. case_decide; subst.
  - apply nm_get_None in Hk0. by rewrite Hk0.
  - by destruct (nm_get k p).
Qed.

(** What [ADD] leaves under a key of the payload: the record of the
    payload merged into the record of the store, if there is one, with
    the list of children that the builder makes. *)
Lemma ADD_record nodeMap st k v :
  NoDup (keys (byContextPath st)) →
  NoDup (keys nodeMap) →
  nm_get k nodeMap = Some v →
  ∃ st' cs,
    ADD nodeMap st = Ok st'
    ∧ nm_get k (byContextPath st')
      = Some (set_children (Some cs)
                (mergeInto (json_node v) (nm_get k (byContextPath st)))).
Proof.
  intros Hnd Hp Hv. rewrite ADD_rebuilt by done. eexists _, _.
  split; [done|]. cbn [byContextPath set_byContextPath].
  rewrite nm_get_rebuilt, nm_get_mergeDeep by (by rewrite keys_jsonRoundTrip).
  by rewrite nm_get_jsonRoundTrip, Hv.
Qed.

(** C6: adding a map of records twice gives the store that adding it
    once gives. *)
Theorem ADD_idempotent nodeMap st :
  NoDup (keys (byContextPath st)) →
  NoDup (keys nodeMap) →
  ∃ st', ADD nodeMap st = Ok st' ∧ ADD nodeMap st' = Ok st'.
Proof.
  intros Hnd Hp. rewrite ADD_rebuilt by done.
  eexists. split; [reflexivity|].
  set (J := jsonRoundTrip nodeMap).
  set (M := mergeDeep (byContextPath st) J).
  assert (NoDup (keys M)) as HndM by (by apply NoDup_mergeDeep).
  rewrite ADD_rebuilt by (simpl; by rewrite keys_rebuilt).
  cbn [byContextPath set_byContextPath]. fold J.
  assert (rebuilt (mergeDeep (rebuilt M) J) = rebuilt M) as ->; [|done].
  apply rebuilt_congr.
  rewrite (stripMap_mergeDeep J (rebuilt M) M) by apply stripMap_rebuilt.
  unfold M. rewrite mergeDeep_idemp; [done|].
  unfold J. by rewrite keys_jsonRoundTrip.
Qed.

Lemma ADD_idempotent_witness :
  NoDup (keys (byContextPath (storeOf siblings)))
  ∧ NoDup (keys shop)
  ∧ ∃ st', ADD shop (storeOf siblings) = Ok st' ∧ ADD shop st' = Ok st'.
Proof.
  assert (NoDup (keys (byContextPath (storeOf siblings)))) as Hnd by solve_NoDup.
  assert (NoDup (keys shop)) as Hp by solve_NoDup.
  split; [done|]. split; [done|].
  exact (ADD_idempotent shop (storeOf siblings) Hnd Hp).
Defined.

(** C5 on the code: a record of the store that the payload names keeps
    the fields that the payload does not name (here the uri and the
    hidden flag), next to the fields of the payload. *)
Theorem ADD_keeps_unnamed_fields :
  ∃ st' n pr,
    ADD [("/sites/a@live", incomingPage)] (storeOf [("/sites/a@live", storedPage)])
    = Ok st'
    ∧ nm_get "/sites/a@live" (byContextPath st') = Some n
    ∧ index n = IxNum 2
    ∧ uri n = Some "/a@live"
    ∧ uri incomingPage = None
    ∧ properties n = Some pr
    ∧ pr !! "title" = Some (PvStr "New")
    ∧ pr !! "_hidden" = Some (PvBool true).
Proof.
  rewrite ADD_rebuilt by solve_NoDup.
  eexists _, _, _. split; [reflexivity|].
  split; [vm_compute; reflexivity|].
  split; [reflexivity|]. split; [reflexivity|]. split; [reflexivity|].
  split; [reflexivity|]. split; by vm_compute.
Qed.

(** ** Which actions return *)

Lemma NoDup_all_updateUri oldUriFragment newUriFragment (nodes : list node) :
  ∀ st,
    NoDup (keys (byContextPath st)) →
    NoDup (keys (byContextPath
                   (all (omap (updateUriOf oldUriFragment newUriFragment) nodes) st))).
Proof.
  induction nodes as [|n nodes IH]; intros st Hnd; [done|]. csimpl.
  destruct (updateUriOf oldUriFragment newUriFragment n) as [effect|] eqn:He;
    [|by apply IH].
  unfold updateUriOf in He. destruct (uri n) as [u|]; [|done].
  case_match; [|done]. injection He as <-. simpl.
  unfold all in IH. apply IH. unfold set_in_node.
  cbn [byContextPath set_byContextPath]. by apply NoDup_nm_update.
Qed.

(** Every action whose payload is well formed returns a store, whatever
    context paths it names, and the keys of the new map are unique
    again. *)
Lemma reducer_returns parentNodeContextPath st a :
  NoDup (keys (byContextPath st)) →
  wellFormedAction a →
  ∃ st',
    reducer parentNodeContextPath st a = Ok st'
    ∧ NoDup (keys (byContextPath st')).
Proof.
  intros Hnd Hwf. destruct a; simpl in *; try (by eexists).
  - destruct Hwf as (m & Hm & Hndm). unfold INIT. rewrite Hm.
    rewrite populateChildren_rebuilt by done. eexists. split; [done|].
    simpl. by rewrite keys_rebuilt.
  - rewrite ADD_rebuilt by done. eexists. split; [done|].
    simpl. rewrite keys_rebuilt. by apply NoDup_mergeDeep.
  - eexists. split; [done|]. simpl. by apply NoDup_nm_delete.
  - unfold SWITCH_DIMENSION. rewrite populateChildren_rebuilt by done.
    eexists. split; [done|]. simpl. by apply NoDup_mergeDeep.
  - rewrite MOVE_rebuilt by done. eexists. split; [done|].
    simpl. rewrite keys_rebuilt. by apply NoDup_nm_update.
  - eexists. split; [done|]. simpl. by apply NoDup_nm_update.
  - eexists. split; [done|]. simpl. by apply NoDup_nm_update.
  - eexists. split; [done|]. by apply NoDup_all_updateUri.
Qed.

(** C9 on the code: [INIT] throws on a server state that has no map of
    records, on which it means to fall back to an empty map. *)
Theorem INIT_without_map_throws parentNodeContextPath st siteNode :
  reducer parentNodeContextPath st (actions.init (mkServerState None siteNode))
  = Throw (TypeError "Cannot convert undefined or null to object").
Proof. reflexivity. Qed.

(** ** The reducer on small inputs *)

Example populateChildren_siblings :
  populateChildren (Some siblings)
  = Ok [ ("P", set_children
                 (Some [ mkChildRef "A" (Some "Neos.NodeTypes:Page") (IxNum 1);
                         mkChildRef "B" (Some "Neos.NodeTypes:Page") (IxNum 2);
                         mkChildRef "C" (Some "Neos.NodeTypes:Page") (IxNum 3) ])
                 (sampleNode PNull 0));
         ("A", set_children (Some []) (sampleNode (PStr "P") 1));
         ("B", set_children (Some []) (sampleNode (PStr "P") 2));
         ("C", set_children (Some []) (sampleNode (PStr "P") 3)) ].
Proof. reflexivity. Qed.

Example populateChildren_orphan :
  populateChildren (Some [("C", sampleNode (PStr "/sites/gone@live") 1)])
  = Ok [("C", set_children (Some []) (sampleNode (PStr "/sites/gone@live") 1))].
Proof. reflexivity. Qed.

Example replace_first_occurrence :
  replace "a/" "b/" "/a/x/a/y@live" = "/b/x/a/y@live".
Proof. reflexivity. Qed.

Example replace_dollar_forms : replace "a" "[$&$$]" "xay" = "x[a$]y".
Proof. reflexivity. Qed.

Example MOVE_absent_target :
  ∃ st' a,
    MOVE sampleParent "A" "/sites/gone@live" "before" (storeOf siblings) = Ok st'
    ∧ nm_get "A" (byContextPath st') = Some a
    ∧ index a = IxNaN
    ∧ keys (byContextPath st') = ["P"; "A"; "B"; "C"].
Proof.
  rewrite MOVE_rebuilt by solve_NoDup. eexists _, _.
  split; [reflexivity|]. split; [by vm_compute|]. by split.
Qed.

Example MOVE_absent_source :
  ∃ st',
    MOVE sampleParent "/sites/gone@live" "A" "into" (storeOf siblings) = Ok st'
    ∧ keys (byContextPath st') = ["P"; "A"; "B"; "C"; "/sites/gone@live"].
Proof.
  rewrite MOVE_rebuilt by solve_NoDup. eexists. split; [reflexivity|].
  by vm_compute.
Qed.

Example REMOVE_absent_key :
  REMOVE "/sites/gone@live" (storeOf siblings) = storeOf siblings.
Proof. reflexivity. Qed.

Example INIT_with_map st :
  INIT (mkServerState (Some siblings) None) st
  = Ok (mkState (rebuilt siblings) "" emptyFocus "" "" ""
          (contentCanvasContextPath st)).
Proof.
  unfold INIT. simpl init_byContextPath.
  by rewrite populateChildren_rebuilt by solve_NoDup.
Qed.

(** * More of the builder *)

Lemma populateChildren_Ok_rebuilt (m m' : nodeMap) :
  NoDup (keys m) → populateChildren (Some m) = Ok m' → m' = rebuilt m.
Proof. intros Hnd. rewrite populateChildren_rebuilt by done. by intros [= <-]. Qed.

(** X1: a second run of the builder changes nothing: the map it returns is
    the map it returns for that map. *)
Theorem populateChildren_idempotent (m m' : nodeMap) :
  NoDup (keys m) →
  populateChildren (Some m) = Ok m' →
  populateChildren (Some m') = Ok m'.
Proof.
  intros Hnd ->%populateChildren_Ok_rebuilt; [|done].
  rewrite populateChildren_rebuilt by (by rewrite keys_rebuilt).
  by rewrite rebuilt_idemp.
Qed.

Lemma populateChildren_idempotent_witness :
  NoDup (keys siblings)
  ∧ populateChildren (Some siblings) = Ok (rebuilt siblings)
  ∧ populateChildren (Some (rebuilt siblings)) = Ok (rebuilt siblings).
Proof.
  assert (NoDup (keys siblings)) as Hnd by solve_NoDup.
  assert (populateChildren (Some siblings) = Ok (rebuilt siblings)) as H
    by reflexivity.
  split; [done|]. split; [done|].
  exact (populateChildren_idempotent siblings (rebuilt siblings) Hnd H).
Defined.

(** X2: the builder does not read the lists of children that it is given:
    two maps that differ in their [children] fields only give the same
    result. *)
Theorem populateChildren_ignores_children (m1 m2 : nodeMap) :
  NoDup (keys m1) →
  stripMap m1 = stripMap m2 →
  populateChildren (Some m1) = populateChildren (Some m2).
Proof.
  intros Hnd Heq.
  assert (NoDup (keys m2)) as Hnd2.
  { by rewrite <- (keys_stripMap m2), <- Heq, keys_stripMap. }
  rewrite !populateChildren_rebuilt by done. f_equal. by apply rebuilt_congr.
Qed.

Lemma populateChildren_ignores_children_witness :
  NoDup (keys family)
  ∧ stripMap family = stripMap bareFamily
  ∧ populateChildren (Some family) = populateChildren (Some bareFamily).
Proof.
  assert (NoDup (keys family)) as Hnd by solve_NoDup.
  assert (stripMap family = stripMap bareFamily) as Heq by reflexivity.
  split; [done|]. split; [done|].
  exact (populateChildren_ignores_children family bareFamily Hnd Heq).
Defined.

Lemma childrenOf_contextPaths k (m : nodeMap) :
  c_contextPath <$> childrenOf k m
  = (filter (λ kn, toKey (parentContextPath kn.2) = k) m).*1.
Proof.
  unfold childrenOf. rewrite <- list_fmap_compose.
  apply Forall_fmap_ext_1, Forall_forall. by intros [c n] _.
Qed.

(** X3: after a run of the builder no list of children names a context
    path twice, and every context path that a list names is a key of
    the map. *)
Theorem populateChildren_references (m m' : nodeMap) :
  NoDup (keys m) →
  populateChildren (Some m) = Ok m' →
  ∀ k n' cs, (k, n') ∈ m' → children n' = Some cs →
    NoDup (c_contextPath <$> cs)
    ∧ ∀ c, c ∈ c_contextPath <$> cs → c ∈ keys m'.
Proof.
  intros Hnd ->%populateChildren_Ok_rebuilt k n' cs Hin Hcs; [|done].
  apply elem_of_kmap in Hin as [n [Hin ->]]. simpl in Hcs. injection Hcs as <-.
  rewrite keys_rebuilt.
  assert (c_contextPath <$> sort compareIndex (childrenOf k m)
          ≡ₚ (filter (λ kn, toKey (parentContextPath kn.2) = k) m).*1) as Hperm.
  { by rewrite sort_Permutation, childrenOf_contextPaths. }
  split.
  - rewrite Hperm. eapply sublist_NoDup; [exact Hnd|]. unfold keys.
    apply fmap_sublist, sublist_filter.
  - intros c Hc. rewrite Hperm in Hc.
    apply list_elem_of_fmap in Hc as [[c0 n0] [-> Hin0]].
    apply list_elem_of_filter in Hin0 as [_ Hin0].
    by apply (elem_keys _ n0).
Qed.

Lemma populateChildren_references_witness :
  NoDup (keys siblings)
  ∧ populateChildren (Some siblings) = Ok (rebuilt siblings)
  ∧ ∀ k n' cs, (k, n') ∈ rebuilt siblings → children n' = Some cs →
      NoDup (c_contextPath <$> cs)
      ∧ ∀ c, c ∈ c_contextPath <$> cs → c ∈ keys (rebuilt siblings).
Proof.
  assert (NoDup (keys siblings)) as Hnd by solve_NoDup.
  assert (populateChildren (Some siblings) = Ok (rebuilt siblings)) as H
    by reflexivity.
  split; [done|]. split; [done|].
  exact (populateChildren_references siblings (rebuilt siblings) Hnd H).
Defined.

(** X4: the comparator of the sort is antisymmetric, and it takes two
    references for equal as soon as the index of one of them is not a
    number. *)
Theorem compareIndex_antisymmetric (a b : childRef) :
  compareIndex a b = - compareIndex b a
  ∧ (ToNumber (c_index a) = NaN ∨ ToNumber (c_index b) = NaN →
     compareIndex a b = 0).
Proof.
  unfold compareIndex, js_lt.
  destruct (ToNumber (c_index a)) as [x|], (ToNumber (c_index b)) as [y|];
    simpl; repeat case_bool_decide; split; try lia; try done;
    intros [?|?]; done.
Qed.

Lemma compareIndex_antisymmetric_witness :
  compareIndex (mkChildRef "A" None IxNaN) (mkChildRef "B" None (IxNum 1)) = 0.
Proof.
  apply (compareIndex_antisymmetric
           (mkChildRef "A" None IxNaN) (mkChildRef "B" None (IxNum 1))).
  by left.
Defined.

(** * More of the reducer *)

(** ** The lists of children as an invariant *)

Lemma childrenBuilt_rebuilt (m : nodeMap) :
  NoDup (keys m) → childrenBuilt m ↔ rebuilt m = m.
Proof.
  intros Hnd. unfold childrenBuilt. rewrite populateChildren_rebuilt by done.
  split; [by intros [= ->] | by intros ->].
Qed.

Lemma childrenBuilt_rebuilt_map (m : nodeMap) :
  NoDup (keys m) → childrenBuilt (rebuilt m).
Proof.
  intros Hnd. apply childrenBuilt_rebuilt; [by rewrite keys_rebuilt|].
  apply rebuilt_idemp.
Qed.

(** X5: after [ADD] and [MOVE] the lists of children are those that the
    builder makes of the new map: the builder would change nothing in
    it. *)
Theorem rebuilding_actions_build parentNodeContextPath st a st' :
  NoDup (keys (byContextPath st)) →
  wellFormedAction a →
  rebuildsChildren a →
  reducer parentNodeContextPath st a = Ok st' →
  childrenBuilt (byContextPath st').
Proof.
  intros Hnd Hwf Hkind. destruct a; try done; simpl in *.
  - rewrite ADD_rebuilt by done. intros [= <-]. simpl.
    by apply childrenBuilt_rebuilt_map, NoDup_mergeDeep.
  - rewrite MOVE_rebuilt by done. intros [= <-]. simpl.
    by apply childrenBuilt_rebuilt_map, NoDup_nm_update.
Qed.

Lemma rebuilding_actions_build_witness :
  NoDup (keys (byContextPath (storeOf siblings)))
  ∧ wellFormedAction (actions.move "A" "B" "after")
  ∧ rebuildsChildren (actions.move "A" "B" "after")
  ∧ ∃ st',
      reducer sampleParent (storeOf siblings) (actions.move "A" "B" "after") = Ok st'
      ∧ childrenBuilt (byContextPath st').
Proof.
  assert (NoDup (keys (byContextPath (storeOf siblings)))) as Hnd by solve_NoDup.
  split; [done|]. split; [exact I|]. split; [exact I|].
  destruct (reducer sampleParent (storeOf siblings) (actions.move "A" "B" "after"))
    as [st'|e] eqn:Hst'; [|by vm_compute in Hst'].
  exists st'. split; [done|].
  exact (rebuilding_actions_build sampleParent (storeOf siblings)
           (actions.move "A" "B" "after") st' Hnd I I Hst').
Defined.

Lemma kmap_fix_elem g (m : nodeMap) k n :
  kmap g m = m → (k, n) ∈ m → g k n = n.
Proof.
  unfold kmap. induction m as [|[k0 n0] m IH]; csimpl.
  - intros _ H. by apply elem_of_nil in H.
  - intros Heq. apply (inj2 cons) in Heq as [Hhd Htl].
    intros [[= -> ->]|Hin]%elem_of_cons; [|by apply IH].
    by apply (f_equal snd) in Hhd.
Qed.

Lemma childrenOf_kmap g k (m : nodeMap) :
  (∀ k' n, sameStructure n (g k' n)) →
  childrenOf k (kmap g m) = childrenOf k m.
Proof.
  intros Hg. unfold childrenOf, kmap.
  induction m as [|[k0 n0] m IH]; csimpl; [done|].
  destruct (Hg k0 n0) as (Hp & Ht & Hi & _).
  rewrite !filter_cons. simpl. rewrite <- Hp.
  case_decide; csimpl; [|done]. rewrite IH. f_equal.
  unfold childRefOf. simpl. by rewrite Ht, Hi.
Qed.

Lemma rebuilt_kmap g (m : nodeMap) :
  (∀ k n, sameStructure n (g k n)) →
  rebuilt m = m → rebuilt (kmap g m) = kmap g m.
Proof.
  intros Hg Hfix. unfold rebuilt at 1. rewrite kmap_kmap.
  apply kmap_ext. intros k n Hin. rewrite childrenOf_kmap by done.
  pose proof (kmap_fix_elem _ _ _ _ Hfix Hin) as Hn.
  destruct (Hg k n) as (_ & _ & _ & Hc).
  apply (f_equal children) in Hn. simpl in Hn. rewrite Hc in Hn.
  rewrite Hn. by destruct (g k n).
Qed.

Lemma nm_update_kmap k f (m : nodeMap) :
  NoDup (keys m) → k ∈ keys m →
  nm_update k f m = kmap (λ k' n, if decide (k' = k) then f (Some n) else n) m.
Proof.
  unfold keys, kmap. induction m as [|[k0 n0] m IH]; csimpl.
  - intros _ H. by apply elem_of_nil in H.
  - rewrite NoDup_cons. intros [Hk0 Hnd] Hin.
    destruct (decide (k = k0)) as [->|Hne].
    + rewrite decide_True by done. f_equal.
      fold (kmap (λ k' n, if decide (k' = k0) then f (Some n) else n) m).
      symmetry. transitivity (kmap (λ _ n, n) m).
      * apply kmap_ext. intros k' n Hin'. rewrite decide_False; [done|].
        intros ->. apply Hk0. by apply (elem_keys _ n).
      * by apply kmap_id.
    + rewrite decide_False by done. f_equal.
      apply elem_of_cons in Hin as [?|Hin]; [done|]. by apply IH.
Qed.

Lemma rebuilt_set_in_node k f st :
  NoDup (keys (byContextPath st)) →
  k ∈ keys (byContextPath st) →
  (∀ n, sameStructure n (f n)) →
  rebuilt (byContextPath st) = byContextPath st →
  rebuilt (byContextPath (set_in_node k f st)) = byContextPath (set_in_node k f st).
Proof.
  intros Hnd Hk Hf Hfix. unfold set_in_node.
  cbn [byContextPath set_byContextPath].
  rewrite nm_update_kmap by done. apply rebuilt_kmap; [|done].
  intros k' n. case_decide; [apply Hf | done].
Qed.

Lemma rebuilt_all_updateUri oldUriFragment newUriFragment (nodes : list node) :
  ∀ st,
    NoDup (keys (byContextPath st)) →
    rebuilt (byContextPath st) = byContextPath st →
    Forall (λ n, is_Some (uri n) →
                 ∃ c, contextPath n = Some c ∧ c ∈ keys (byContextPath st)) nodes →
    let st' := all (omap (updateUriOf oldUriFragment newUriFragment) nodes) st in
    rebuilt (byContextPath st') = byContextPath st'.
Proof.
  induction nodes as [|n nodes IH]; intros st Hnd Hfix Hall; [done|].
  inversion_clear Hall as [|? ? Hn Hrest]. csimpl.
  destruct (updateUriOf oldUriFragment newUriFragment n) as [effect|] eqn:He;
    [|by apply IH].
  unfold updateUriOf in He. destruct (uri n) as [u|] eqn:Hu; [|done].
  destruct Hn as (c & Hc & Hin); [done|]. rewrite Hc in He. simpl in He.
  case_match; [|done]. injection He as <-. simpl.
  unfold all in IH. apply IH.
  - unfold set_in_node. cbn [byContextPath set_byContextPath].
    by apply NoDup_nm_update.
  - by apply rebuilt_set_in_node.
  - unfold set_in_node. cbn [byContextPath set_byContextPath].
    by rewrite keys_nm_update_in.
Qed.

(** X6: [HIDE], [SHOW], [UPDATE_URI] and the actions on the focus, the
    clipboard and the removal mark keep the lists of children as the
    builder makes them, when the context path they write under is a key
    of the map. *)
Theorem childrenBuilt_kept parentNodeContextPath st a :
  NoDup (keys (byContextPath st)) →
  childrenBuilt (byContextPath st) →
  writesNoStructure a →
  writesUnderKey st a →
  ∃ st',
    reducer parentNodeContextPath st a = Ok st'
    ∧ childrenBuilt (byContextPath st').
Proof.
  intros Hnd Hbuilt Hkind Hkey.
  pose proof (proj1 (childrenBuilt_rebuilt _ Hnd) Hbuilt) as Hfix.
  destruct a; try done; simpl in *; try (by eexists).
  - eexists. split; [done|]. unfold HIDE.
    apply childrenBuilt_rebuilt.
    { unfold set_in_node. simpl. by apply NoDup_nm_update. }
    by apply rebuilt_set_in_node.
  - eexists. split; [done|]. unfold SHOW.
    apply childrenBuilt_rebuilt.
    { unfold set_in_node. simpl. by apply NoDup_nm_update. }
    by apply rebuilt_set_in_node.
  - eexists. split; [done|]. unfold UPDATE_URI.
    apply childrenBuilt_rebuilt; [by apply NoDup_all_updateUri|].
    by apply rebuilt_all_updateUri.
Qed.

Lemma childrenBuilt_kept_witness :
  NoDup (keys (byContextPath (storeOf family)))
  ∧ childrenBuilt (byContextPath (storeOf family))
  ∧ writesNoStructure (actions.hide "C")
  ∧ writesUnderKey (storeOf family) (actions.hide "C")
  ∧ ∃ st',
      reducer sampleParent (storeOf family) (actions.hide "C") = Ok st'
      ∧ childrenBuilt (byContextPath st').
Proof.
  assert (NoDup (keys (byContextPath (storeOf family)))) as Hnd by solve_NoDup.
  assert (childrenBuilt (byContextPath (storeOf family))) as Hbuilt by reflexivity.
  assert (writesUnderKey (storeOf family) (actions.hide "C")) as Hkey.
  { simpl. apply (bool_decide_unpack _). by vm_compute. }
  split; [done|]. split; [done|]. split; [exact I|]. split; [done|].
  exact (childrenBuilt_kept sampleParent (storeOf family) (actions.hide "C")
           Hnd Hbuilt I Hkey).
Defined.

(** ** Removing, again *)

Lemma set_byContextPath_id st : set_byContextPath (byContextPath st) st = st.
Proof. by destruct st. Qed.

Lemma nm_delete_notin k (m : nodeMap) : k ∉ keys m → nm_delete k m = m.
Proof.
  unfold keys, nm_delete. induction m as [|[k0 n0] m IH]; csimpl; [done|].
  rewrite not_elem_of_cons. intros [Hne Hk].
  rewrite filter_cons_True by (simpl; congruence). by rewrite IH.
Qed.

(** X7: [REMOVE] of a context path that is not a key of the map gives the
    store back as it is. *)
Theorem REMOVE_missing_key contextPath st :
  contextPath ∉ keys (byContextPath st) →
  REMOVE contextPath st = st.
Proof.
  intros Hk. unfold REMOVE. rewrite nm_delete_notin by done.
  apply set_byContextPath_id.
Qed.

Lemma REMOVE_missing_key_witness :
  ("/sites/gone@live" ∉ keys (byContextPath (storeOf siblings)))
  ∧ REMOVE "/sites/gone@live" (storeOf siblings) = storeOf siblings.
Proof.
  assert ("/sites/gone@live" ∉ keys (byContextPath (storeOf siblings))) as Hk.
  { apply (bool_decide_unpack _). by vm_compute. }
  split; [done|].
  exact (REMOVE_missing_key "/sites/gone@live" (storeOf siblings) Hk).
Defined.


(** ** Hiding and showing *)

Lemma set_hidden_set_hidden b1 b2 n :
  set_hidden b2 (set_hidden b1 n) = set_hidden b2 n.
Proof.
  unfold set_hidden, set_properties. simpl. by rewrite insert_insert_eq.
Qed.

Lemma set_in_node_twice k f g st :
  set_in_node k g (set_in_node k f st) = set_in_node k (λ n, g (f n)) st.
Proof.
  unfold set_in_node. cbn [byContextPath set_byContextPath].
  by rewrite nm_update_twice.
Qed.

Lemma set_in_node_ext k f g st :
  (∀ n, f n = g n) → set_in_node k f st = set_in_node k g st.
Proof.
  intros H. unfold set_in_node. f_equal. apply nm_update_ext. intros e. apply H.
Qed.

(** X9: of two actions that hide or show the same context path the later
    one decides: showing after hiding is showing, hiding after showing
    is hiding, and either action made twice is the action made once. *)
Theorem HIDE_SHOW_last_wins contextPath st :
  SHOW contextPath (HIDE contextPath st) = SHOW contextPath st
  ∧ HIDE contextPath (SHOW contextPath st) = HIDE contextPath st
  ∧ HIDE contextPath (HIDE contextPath st) = HIDE contextPath st
  ∧ SHOW contextPath (SHOW contextPath st) = SHOW contextPath st.
Proof.
  unfold HIDE, SHOW. rewrite !set_in_node_twice.
  repeat split; apply set_in_node_ext; intros n; apply set_hidden_set_hidden.
Qed.

Lemma hiddenSetTo_set_in_node b contextPath st :
  hiddenSetTo b contextPath st (set_in_node contextPath (set_hidden b) st).
Proof.
  unfold hiddenSetTo, set_in_node. cbn [byContextPath set_byContextPath].
  split; [|split; [|done]].
  - eexists _, _. rewrite nm_get_nm_update, decide_True by done.
    split; [done|]. split; [done|].
    split; [by rewrite lookup_insert_eq|].
    split; [|done]. intros name Hname. by rewrite lookup_insert_ne.
  - intros k Hk. by rewrite nm_get_nm_update, decide_False.
Qed.

(** X10: [HIDE] sets the hidden flag of the record under the context path to
    [true] and [SHOW] sets it to [false], making the record and its
    properties when they are missing; every other property and field
    of that record, every other record and the rest of the store stay
    as they are. *)
Theorem HIDE_SHOW_flag contextPath st :
  hiddenSetTo true contextPath st (HIDE contextPath st)
  ∧ hiddenSetTo false contextPath st (SHOW contextPath st).
Proof. split; apply hiddenSetTo_set_in_node. Qed.

(** ** Adding, again *)

Lemma filter_iff_elem {A} (P Q : A → Prop)
    `{!∀ x, Decision (P x), !∀ x, Decision (Q x)} (l : list A) :
  (∀ x, x ∈ l → P x ↔ Q x) → filter P l = filter Q l.
Proof.
  induction l as [|a l IH]; intros HPQ; [done|].
  rewrite !filter_cons.
  rewrite IH by (intros x Hx; apply HPQ; by apply list_elem_of_further).
  pose proof (HPQ a (list_elem_of_here _ _)) as Ha.
  destruct (decide (P a)), (decide (Q a)); tauto || done.
Qed.

Lemma keys_mergeDeep (p : nodeMap) :
  NoDup (keys p) →
  ∀ m : nodeMap,
    keys (mergeDeep m p) = keys m ++ filter (λ k, k ∉ keys m) (keys p).
Proof.
  induction p as [|[k v] p IH]; intros Hnd m.
  - simpl. by rewrite app_nil_r.
  - unfold keys in Hnd. csimpl in Hnd. apply NoDup_cons in Hnd as [Hk Hnd].
    rewrite mergeDeep_cons, IH by done.
    change (keys ((k, v) :: p)) with (k :: keys p). rewrite filter_cons.
    destruct (decide (k ∈ keys m)) as [Hin|Hin].
    + rewrite keys_nm_update_in by done.
      by rewrite decide_False by (by intros ?).
    + rewrite keys_nm_update_notin by done. rewrite decide_True by done.
      rewrite <- app_assoc. simpl. do 2 f_equal.
      apply filter_iff_elem. intros x Hx.
      rewrite elem_of_app, list_elem_of_singleton.
      split; [tauto|]. intros Hxm [?| ->]; [done|]. by apply Hk.
Qed.

(** X11: [ADD] deletes no key and adds the keys of the payload that the
    store does not have, each once: the keys of the new map are those
    of the store and those of the payload. *)
Theorem ADD_keys nodeMap st st' :
  NoDup (keys (byContextPath st)) →
  NoDup (keys nodeMap) →
  ADD nodeMap st = Ok st' →
  NoDup (keys (byContextPath st'))
  ∧ ∀ k, k ∈ keys (byContextPath st')
         ↔ k ∈ keys (byContextPath st) ∨ k ∈ keys nodeMap.
Proof.
  intros Hnd Hp. rewrite ADD_rebuilt by done. intros [= <-].
  cbn [byContextPath set_byContextPath]. rewrite keys_rebuilt.
  split; [by apply NoDup_mergeDeep|].
  intros k. rewrite keys_mergeDeep by (by rewrite keys_jsonRoundTrip).
  rewrite keys_jsonRoundTrip, elem_of_app, list_elem_of_filter.
  destruct (decide (k ∈ keys (byContextPath st))); tauto.
Qed.

Lemma ADD_keys_witness :
  NoDup (keys (byContextPath (storeOf siblings)))
  ∧ NoDup (keys shop)
  ∧ ∃ st',
      ADD shop (storeOf siblings) = Ok st'
      ∧ "/sites/shop/shoes@live" ∈ keys (byContextPath st')
      ∧ "A" ∈ keys (byContextPath st').
Proof.
  assert (NoDup (keys (byContextPath (storeOf siblings)))) as Hnd by solve_NoDup.
  assert (NoDup (keys shop)) as Hp by solve_NoDup.
  split; [done|]. split; [done|].
  destruct (ADD shop (storeOf siblings)) as [st'|e] eqn:Hst';
    [|by vm_compute in Hst'].
  exists st'. split; [done|].
  destruct (ADD_keys shop (storeOf siblings) st' Hnd Hp Hst') as [_ Hkeys].
  split; apply Hkeys.
  - right. apply (bool_decide_unpack _). by vm_compute.
  - left. apply (bool_decide_unpack _). by vm_compute.
Defined.

(** X12: [ADD] writes the map of records only, and a record under a key that
    the payload does not name keeps every field but its list of
    children. *)
Theorem ADD_other_records nodeMap st st' :
  NoDup (keys (byContextPath st)) →
  NoDup (keys nodeMap) →
  ADD nodeMap st = Ok st' →
  st' = set_byContextPath (byContextPath st') st
  ∧ ∀ k, k ∉ keys nodeMap →
         strip <$> nm_get k (byContextPath st')
         = strip <$> nm_get k (byContextPath st).
Proof.
  intros Hnd Hp. rewrite ADD_rebuilt by done. intros [= <-].
  cbn [byContextPath set_byContextPath]. split; [done|]. intros k Hk.
  rewrite nm_get_rebuilt, nm_get_mergeDeep by (by rewrite keys_jsonRoundTrip).
  rewrite nm_get_jsonRoundTrip.
  apply nm_get_None in Hk. rewrite Hk. simpl.
  by destruct (nm_get k (byContextPath st)).
Qed.

Lemma ADD_other_records_witness :
  NoDup (keys (byContextPath (storeOf siblings)))
  ∧ NoDup (keys family)
  ∧ ∃ st',
      ADD family (storeOf siblings) = Ok st'
      ∧ st' = set_byContextPath (byContextPath st') (storeOf siblings).
Proof.
  assert (NoDup (keys (byContextPath (storeOf siblings)))) as Hnd by solve_NoDup.
  assert (NoDup (keys family)) as Hp by solve_NoDup.
  split; [done|]. split; [done|].
  destruct (ADD family (storeOf siblings)) as [st'|e] eqn:Hst';
    [|by vm_compute in Hst'].
  exists st'. split; [done|].
  exact (proj1 (ADD_other_records family (storeOf siblings) st' Hnd Hp Hst')).
Defined.

(** X13: under a key of the payload that the store has already, [ADD]
    leaves a record in which each of the uri, the type, the context
    path and the parent link is the one of the payload where the
    payload names it, and the one of the store where it does not. *)
Theorem ADD_merges_fields nodeMap st st' k v e :
  NoDup (keys (byContextPath st)) →
  NoDup (keys nodeMap) →
  nm_get k nodeMap = Some v →
  nm_get k (byContextPath st) = Some e →
  ADD nodeMap st = Ok st' →
  ∃ n,
    nm_get k (byContextPath st') = Some n
    ∧ uri n = (if uri v is Some _ then uri v else uri e)
    ∧ nodeType n = (if nodeType v is Some _ then nodeType v else nodeType e)
    ∧ contextPath n
      = (if contextPath v is Some _ then contextPath v else contextPath e)
    ∧ parentContextPath n
      = (if parentContextPath v is PUndefined then parentContextPath e
         else parentContextPath v).
Proof.
  intros Hnd Hp Hv He HADD.
  destruct (ADD_record nodeMap st k v Hnd Hp Hv) as (st0 & cs & HADD0 & Hget).
  rewrite HADD in HADD0. injection HADD0 as <-.
  eexists. split; [exact Hget|]. rewrite He. simpl.
  split; [by destruct (uri v)|]. split; [by destruct (nodeType v)|].
  split; [by destruct (contextPath v)|]. by destruct (parentContextPath v).
Qed.

Lemma ADD_merges_fields_witness :
  NoDup (keys (byContextPath (storeOf [("/sites/a@live", storedPage)])))
  ∧ NoDup (keys [("/sites/a@live", incomingPage)])
  ∧ ∃ st' n,
      ADD [("/sites/a@live", incomingPage)] (storeOf [("/sites/a@live", storedPage)])
      = Ok st'
      ∧ nm_get "/sites/a@live" (byContextPath st') = Some n
      ∧ uri n = Some "/a@live".
Proof.
  assert (NoDup (keys (byContextPath (storeOf [("/sites/a@live", storedPage)]))))
    as Hnd by solve_NoDup.
  assert (NoDup (keys [("/sites/a@live", incomingPage)])) as Hp by solve_NoDup.
  split; [done|]. split; [done|].
  destruct (ADD [("/sites/a@live", incomingPage)]
              (storeOf [("/sites/a@live", storedPage)])) as [st'|err] eqn:Hst';
    [|by vm_compute in Hst'].
  destruct (ADD_merges_fields _ _ st' "/sites/a@live" incomingPage storedPage
              Hnd Hp eq_refl eq_refl Hst') as (n & Hn & Hu & _).
  by exists st', n.
Defined.

(** X14: the payload of [ADD] goes through JSON: under a key whose record
    has an index that is not a number, the store gets the index
    [null]. *)
Theorem ADD_index_through_JSON nodeMap st k v :
  NoDup (keys (byContextPath st)) →
  NoDup (keys nodeMap) →
  nm_get k nodeMap = Some v →
  index v = IxNaN →
  ∃ st' n,
    ADD nodeMap st = Ok st'
    ∧ nm_get k (byContextPath st') = Some n
    ∧ index n = IxNull.
Proof.
  intros Hnd Hp Hv Hi.
  destruct (ADD_record nodeMap st k v Hnd Hp Hv) as (st' & cs & HADD & Hget).
  eexists _, _. split; [exact HADD|]. split; [exact Hget|].
  destruct (nm_get k (byContextPath st)); simpl; by rewrite Hi.
Qed.

Lemma ADD_index_through_JSON_witness :
  NoDup (keys (byContextPath (storeOf siblings)))
  ∧ NoDup (keys [("/sites/a@live", unnumbered)])
  ∧ index unnumbered = IxNaN
  ∧ ∃ st' n,
      ADD [("/sites/a@live", unnumbered)] (storeOf siblings) = Ok st'
      ∧ nm_get "/sites/a@live" (byContextPath st') = Some n
      ∧ index n = IxNull.
Proof.
  assert (NoDup (keys (byContextPath (storeOf siblings)))) as Hnd by solve_NoDup.
  assert (NoDup (keys [("/sites/a@live", unnumbered)])) as Hp by solve_NoDup.
  split; [done|]. split; [done|]. split; [reflexivity|].
  exact (ADD_index_through_JSON [("/sites/a@live", unnumbered)] (storeOf siblings)
           "/sites/a@live" unnumbered Hnd Hp eq_refl eq_refl).
Defined.

(** X15: [ADD] of the empty map gives the store back when its lists of
    children are those that the builder makes. *)
Theorem ADD_empty st :
  childrenBuilt (byContextPath st) → ADD [] st = Ok st.
Proof.
  intros H. unfold childrenBuilt in H.
  change (ADD [] st)
    with (processedCrNodes ← populateChildren (Some (byContextPath st));
          Ok (set_byContextPath processedCrNodes st)).
  rewrite H. simpl. by rewrite set_byContextPath_id.
Qed.

Lemma ADD_empty_witness :
  childrenBuilt (byContextPath (storeOf family))
  ∧ ADD [] (storeOf family) = Ok (storeOf family).
Proof.
  assert (childrenBuilt (byContextPath (storeOf family))) as H by reflexivity.
  split; [done|]. exact (ADD_empty (storeOf family) H).
Defined.

(** ** Moving, again *)

Lemma StronglySorted_snoc_inv {A} (R : A → A → Prop) (l : list A) (w : A) :
  StronglySorted R (l ++ [w]) → Forall (λ y, R y w) l.
Proof.
  induction l as [|a l IH]; simpl; [constructor|].
  intros Hs. inversion_clear Hs as [|? ? Hs' Ha]. constructor; [|by apply IH].
  rewrite Forall_forall in Ha. apply Ha, elem_of_app. right.
  apply list_elem_of_here.
Qed.

(** A reference whose index is above the indices of all the others is
    the last one after the sort. *)
Lemma sort_last_max (l : list childRef) (x : childRef) (zx : Z) :
  x ∈ l →
  ToNumber (c_index x) = Num zx →
  (∀ y, y ∈ l → y = x ∨ ∃ z, ToNumber (c_index y) = Num z ∧ z < zx) →
  last (sort compareIndex l) = Some x.
Proof.
  intros Hx Hzx Hl.
  assert (Forall (λ y, isNumeric (c_index y)) l) as Hnum.
  { apply Forall_forall. intros y Hy. unfold isNumeric.
    destruct (Hl y Hy) as [->|(z & -> & _)]; [by rewrite Hzx | done]. }
  pose proof (sort_sorted l Hnum) as Hsorted.
  pose proof (sort_Permutation compareIndex l) as Hperm.
  destruct (last (sort compareIndex l)) as [w|] eqn:Hlast.
  - apply last_Some in Hlast as [s' Hs'].
    rewrite Hs' in Hsorted, Hperm.
    assert (w ∈ l) as Hw.
    { rewrite <- Hperm. apply elem_of_app. right. apply list_elem_of_here. }
    destruct (Hl w Hw) as [->|(z & Hz & Hlt)]; [done|].
    assert (x ∈ s' ++ [w]) as Hx' by (by rewrite Hperm).
    apply elem_of_app in Hx' as [Hx'| ->%list_elem_of_singleton]; [|done].
    apply StronglySorted_snoc_inv in Hsorted. rewrite Forall_forall in Hsorted.
    specialize (Hsorted x Hx'). unfold index_le in Hsorted.
    rewrite Hzx, Hz in Hsorted. lia.
  - apply last_None in Hlast. rewrite Hlast in Hperm.
    apply Permutation_nil_l in Hperm. subst l. by apply elem_of_nil in Hx.
Qed.

Lemma elem_of_withMoved c n src newIndex base st :
  NoDup (keys (byContextPath st)) →
  (c, n) ∈ withMoved src newIndex base st →
  (c = src
   ∧ n = set_parentContextPath base
           (set_index newIndex
              (default emptyNode (nm_get src (byContextPath st)))))
  ∨ (c ≠ src ∧ (c, n) ∈ byContextPath st).
Proof.
  intros Hnd Hin.
  apply nm_get_elem in Hin; [|by apply NoDup_nm_update].
  unfold withMoved in Hin. rewrite nm_get_nm_update in Hin.
  case_decide; subst.
  - left. by injection Hin as <-.
  - right. split; [done|]. by apply nm_get_Some_elem.
Qed.

(** X16: a record that is moved into a target ends up as the last child of
    the target, when the other children of the target have numeric
    indices below the index that the move gives. *)
Theorem MOVE_into_sorts_last parentNodeContextPath st nodeToBeMoved targetNode :
  NoDup (keys (byContextPath st)) →
  targetNode ∈ keys (byContextPath st) →
  (∀ c n, (c, n) ∈ byContextPath st → c ≠ nodeToBeMoved →
          toKey (parentContextPath n) = targetNode →
          ∃ z, ToNumber (index n) = Num z ∧ z < 9007199254740991) →
  ∃ st' t cs,
    MOVE parentNodeContextPath nodeToBeMoved targetNode "into" st = Ok st'
    ∧ nm_get targetNode (byContextPath st') = Some t
    ∧ children t = Some cs
    ∧ last cs
      = Some (mkChildRef nodeToBeMoved
                (nodeType (default emptyNode
                             (nm_get nodeToBeMoved (byContextPath st))))
                (IxNum 9007199254740991)).
Proof.
  intros Hnd Htgt Hothers. rewrite MOVE_rebuilt by done.
  rewrite !decide_True by done.
  set (M := withMoved nodeToBeMoved (IxNum 9007199254740991) (PStr targetNode) st).
  assert (is_Some (nm_get targetNode M)) as [t0 Ht0].
  { apply nm_get_is_Some. by apply elem_keys_nm_update_mono. }
  eexists _, _, _. split; [done|]. cbn [byContextPath set_byContextPath].
  rewrite nm_get_rebuilt, Ht0. simpl. split; [done|]. split; [done|].
  apply (sort_last_max _ _ 9007199254740991); [|done|].
  - apply elem_of_childrenOf.
    exists nodeToBeMoved,
      (set_parentContextPath (PStr targetNode)
         (set_index (IxNum 9007199254740991)
            (default emptyNode (nm_get nodeToBeMoved (byContextPath st))))).
    split; [|done].
    apply nm_get_Some_elem. unfold M. apply nm_get_withMoved.
  - intros y (c & n & Hin & Hp & ->)%elem_of_childrenOf.
    apply elem_of_withMoved in Hin as [[-> ->]|[Hne Hin]]; [by left| |done].
    right. by apply (Hothers c n).
Qed.

Lemma MOVE_into_sorts_last_witness :
  NoDup (keys (byContextPath (storeOf siblings)))
  ∧ "P" ∈ keys (byContextPath (storeOf siblings))
  ∧ c_contextPath <$> childrenOf "P" (byContextPath (storeOf siblings))
    = ["A"; "B"; "C"]
  ∧ (∀ c n, (c, n) ∈ byContextPath (storeOf siblings) → c ≠ "B" →
            toKey (parentContextPath n) = "P" →
            ∃ z, ToNumber (index n) = Num z ∧ z < 9007199254740991)
  ∧ ∃ st' t cs,
      MOVE sampleParent "B" "P" "into" (storeOf siblings) = Ok st'
      ∧ nm_get "P" (byContextPath st') = Some t
      ∧ children t = Some cs
      ∧ last cs
        = Some (mkChildRef "B" (Some "Neos.NodeTypes:Page") (IxNum 9007199254740991)).
Proof.
  assert (NoDup (keys (byContextPath (storeOf siblings)))) as Hnd by solve_NoDup.
  assert ("P" ∈ keys (byContextPath (storeOf siblings))) as Htgt.
  { apply (bool_decide_unpack _). by vm_compute. }
  assert (∀ c n, (c, n) ∈ byContextPath (storeOf siblings) → c ≠ "B" →
                 toKey (parentContextPath n) = "P" →
                 ∃ z, ToNumber (index n) = Num z ∧ z < 9007199254740991)
    as Hothers.
  { intros c n Hin Hne Hp. simpl in Hin.
    apply elem_of_cons in Hin as [[= -> ->]|Hin]; [by simpl in Hp|].
    apply elem_of_cons in Hin as [[= -> ->]|Hin]; [by exists 1|].
    apply elem_of_cons in Hin as [[= -> ->]|Hin]; [done|].
    apply elem_of_cons in Hin as [[= -> ->]|Hin]; [by exists 3|].
    by apply elem_of_nil in Hin. }
  split; [done|]. split; [done|]. split; [reflexivity|]. split; [done|].
  exact (MOVE_into_sorts_last sampleParent (storeOf siblings) "B" "P"
           Hnd Htgt Hothers).
Defined.

(** X17: a move before or after a target that is not in the map gives the
    moved record an index that is not a number, and the parent that
    [parentNodeContextPath] reads off the context path of the target. *)
Theorem MOVE_missing_target parentNodeContextPath st nodeToBeMoved targetNode position :
  NoDup (keys (byContextPath st)) →
  nm_get targetNode (byContextPath st) = None →
  position ≠ "into" →
  ∃ st' n,
    MOVE parentNodeContextPath nodeToBeMoved targetNode position st = Ok st'
    ∧ nm_get nodeToBeMoved (byContextPath st') = Some n
    ∧ index n = IxNaN
    ∧ parentContextPath n = parentNodeContextPath targetNode.
Proof.
  intros Hnd Htgt Hpos. rewrite MOVE_rebuilt by done.
  rewrite !(decide_False (P := position = "into")) by done.
  unfold targetIndexOf. rewrite Htgt. simpl.
  eexists _, _. split; [done|]. cbn [byContextPath set_byContextPath].
  rewrite nm_get_rebuilt, nm_get_withMoved. simpl.
  split; [done|]. split; [by case_decide | done].
Qed.

Lemma MOVE_missing_target_witness :
  NoDup (keys (byContextPath (storeOf siblings)))
  ∧ nm_get "/sites/gone@live" (byContextPath (storeOf siblings)) = None
  ∧ "before" ≠ "into"
  ∧ ∃ st' n,
      MOVE sampleParent "A" "/sites/gone@live" "before" (storeOf siblings) = Ok st'
      ∧ nm_get "A" (byContextPath st') = Some n
      ∧ index n = IxNaN
      ∧ parentContextPath n = sampleParent "/sites/gone@live".
Proof.
  assert (NoDup (keys (byContextPath (storeOf siblings)))) as Hnd by solve_NoDup.
  assert ("before" ≠ "into") as Hpos by done.
  split; [done|]. split; [reflexivity|]. split; [done|].
  exact (MOVE_missing_target sampleParent (storeOf siblings) "A" "/sites/gone@live"
           "before" Hnd eq_refl Hpos).
Defined.

(** X18: [MOVE] writes the map of records only; every record but the moved
    one keeps all its fields but the list of children, the moved one
    keeps its context path, type, properties and uri, and the only key
    that can be new is the one of the moved record: the keys stay as
    they are when it is one of them. *)
Theorem MOVE_other_records parentNodeContextPath st nodeToBeMoved targetNode position st' :
  NoDup (keys (byContextPath st)) →
  MOVE parentNodeContextPath nodeToBeMoved targetNode position st = Ok st' →
  st' = set_byContextPath (byContextPath st') st
  ∧ (∀ k, k ≠ nodeToBeMoved →
          strip <$> nm_get k (byContextPath st')
          = strip <$> nm_get k (byContextPath st))
  ∧ (∃ n,
       nm_get nodeToBeMoved (byContextPath st') = Some n
       ∧ let old := default emptyNode (nm_get nodeToBeMoved (byContextPath st)) in
         contextPath n = contextPath old
         ∧ nodeType n = nodeType old
         ∧ properties n = properties old
         ∧ uri n = uri old)
  ∧ (∀ k, k ∈ keys (byContextPath st')
          ↔ k ∈ keys (byContextPath st) ∨ k = nodeToBeMoved)
  ∧ (nodeToBeMoved ∈ keys (byContextPath st) →
     keys (byContextPath st') = keys (byContextPath st)).
Proof.
  intros Hnd. rewrite MOVE_rebuilt by done. intros [= <-].
  cbn [byContextPath set_byContextPath]. split; [done|].
  split; [|split; [|split]].
  - intros k Hk. rewrite nm_get_rebuilt. unfold withMoved.
    rewrite nm_get_nm_update, (decide_False (P := k = nodeToBeMoved)) by done.
    by destruct (nm_get k (byContextPath st)).
  - eexists. rewrite nm_get_rebuilt, nm_get_withMoved. by simpl.
  - intros k. rewrite keys_rebuilt. unfold withMoved.
    apply elem_keys_nm_update_iff.
  - intros Hin. rewrite keys_rebuilt. unfold withMoved.
    by apply keys_nm_update_in.
Qed.

Lemma MOVE_other_records_witness :
  NoDup (keys (byContextPath (storeOf siblings)))
  ∧ ∃ st',
      MOVE sampleParent "A" "B" "after" (storeOf siblings) = Ok st'
      ∧ keys (byContextPath st') = ["P"; "A"; "B"; "C"].
Proof.
  assert (NoDup (keys (byContextPath (storeOf siblings)))) as Hnd by solve_NoDup.
  split; [done|].
  destruct (MOVE sampleParent "A" "B" "after" (storeOf siblings))
    as [st'|err] eqn:Hst'; [|by vm_compute in Hst'].
  exists st'. split; [done|].
  apply (proj2 (proj2 (proj2 (proj2
           (MOVE_other_records sampleParent (storeOf siblings) "A" "B" "after" st'
              Hnd Hst'))))).
  apply (bool_decide_unpack _). by vm_compute.
Defined.

(** ** Switching the dimension *)

(** X19: [SWITCH_DIMENSION] sets the site node and the document node, clears
    the focus and leaves the clipboard and the removal mark; it deletes
    no key; a record under a key that the payload does not name stays
    as it is, its list of children included; and a key of the payload
    that the store does not have gets the record of the payload with
    the list of children that the builder makes of the payload alone. *)
Theorem SWITCH_DIMENSION_merges siteNodeContextPath documentNodeContextPath nodes st :
  NoDup (keys (byContextPath st)) →
  NoDup (keys nodes) →
  ∃ st',
    SWITCH_DIMENSION siteNodeContextPath documentNodeContextPath nodes st = Ok st'
    ∧ siteNode st' = siteNodeContextPath
    ∧ contentCanvasContextPath st' = documentNodeContextPath
    ∧ focused st' = emptyFocus
    ∧ toBeRemoved st' = toBeRemoved st
    ∧ clipboard st' = clipboard st
    ∧ clipboardMode st' = clipboardMode st
    ∧ (∀ k, k ∈ keys (byContextPath st) → k ∈ keys (byContextPath st'))
    ∧ (∀ k, k ∉ keys nodes →
            nm_get k (byContextPath st') = nm_get k (byContextPath st))
    ∧ (∀ k v, nm_get k nodes = Some v → nm_get k (byContextPath st) = None →
              nm_get k (byContextPath st')
              = Some (set_children
                        (Some (sort compareIndex (childrenOf k nodes))) v)).
Proof.
  intros Hnd Hnodes. unfold SWITCH_DIMENSION.
  rewrite populateChildren_rebuilt by done. eexists. split; [done|].
  simpl. repeat (split; [done|]).
  assert (NoDup (keys (rebuilt nodes))) as Hnd' by (by rewrite keys_rebuilt).
  split; [|split].
  - intros k Hk. rewrite keys_mergeDeep by done. apply elem_of_app. by left.
  - intros k Hk. rewrite nm_get_mergeDeep, nm_get_rebuilt by done.
    apply nm_get_None in Hk. by rewrite Hk.
  - intros k v Hv Hk. rewrite nm_get_mergeDeep, nm_get_rebuilt by done.
    by rewrite Hv, Hk.
Qed.

Lemma SWITCH_DIMENSION_merges_witness :
  NoDup (keys (byContextPath (storeOf siblings)))
  ∧ NoDup (keys shop)
  ∧ ∃ st',
      SWITCH_DIMENSION "/sites/shop@live" "/sites/shop/shoes@live" shop
        (storeOf siblings) = Ok st'
      ∧ siteNode st' = "/sites/shop@live".
Proof.
  assert (NoDup (keys (byContextPath (storeOf siblings)))) as Hnd by solve_NoDup.
  assert (NoDup (keys shop)) as Hp by solve_NoDup.
  split; [done|]. split; [done|].
  destruct (SWITCH_DIMENSION_merges "/sites/shop@live" "/sites/shop/shoes@live"
              shop (storeOf siblings) Hnd Hp) as (st' & H1 & H2 & _).
  by exists st'.
Defined.

(** ** Initialising *)

(** X20: [INIT] on a server state with a map of records takes nothing of
    the store but the document node: every key of the map of the server
    reads the record that the builder makes of it on that map, and
    there is no other key; the site node is the one of the server or
    the empty string, the focus, the clipboard and the removal mark are
    empty; a second [INIT] with the same server state changes
    nothing. *)
Theorem INIT_replaces m site st :
  NoDup (keys m) →
  ∃ st' m',
    INIT (mkServerState (Some m) site) st = Ok st'
    ∧ populateChildren (Some m) = Ok m'
    ∧ (∀ k, nm_get k (byContextPath st') = nm_get k m')
    ∧ (∀ k, k ∈ keys (byContextPath st') ↔ k ∈ keys m)
    ∧ siteNode st' = default "" site
    ∧ focused st' = emptyFocus
    ∧ toBeRemoved st' = ""
    ∧ clipboard st' = ""
    ∧ clipboardMode st' = ""
    ∧ contentCanvasContextPath st' = contentCanvasContextPath st
    ∧ (∀ st2, contentCanvasContextPath st2 = contentCanvasContextPath st →
              INIT (mkServerState (Some m) site) st2 = Ok st').
Proof.
  intros Hnd. unfold INIT. cbn [init_byContextPath init_siteNode].
  rewrite populateChildren_rebuilt by done. eexists _, _.
  split; [done|]. split; [done|]. simpl.
  split; [done|]. split; [intros k; by rewrite keys_rebuilt|].
  repeat (split; [done|]). by intros st2 ->.
Qed.

Lemma INIT_replaces_witness :
  NoDup (keys siblings)
  ∧ ∃ st' m',
      INIT (mkServerState (Some siblings) None) (storeOf family) = Ok st'
      ∧ populateChildren (Some siblings) = Ok m'
      ∧ nm_get "P" (byContextPath st') = nm_get "P" m'.
Proof.
  assert (NoDup (keys siblings)) as Hnd by solve_NoDup.
  split; [done|].
  destruct (INIT_replaces siblings None (storeOf family) Hnd)
    as (st' & m' & H1 & H2 & H3 & _).
  exists st', m'. split; [done|]. split; [done|]. apply H3.
Defined.

(** ** Updating the uris, again *)

(** X21: [UPDATE_URI] gives the store back when no uri has an occurrence of
    the old fragment followed by a slash or an at sign. *)
Theorem UPDATE_URI_no_match oldUriFragment newUriFragment st :
  (∀ k n nodeUri, (k, n) ∈ byContextPath st → uri n = Some nodeUri →
     ¬ contains (oldUriFragment +:+ "/") nodeUri
     ∧ ¬ contains (oldUriFragment +:+ "@") nodeUri) →
  UPDATE_URI oldUriFragment newUriFragment st = st.
Proof.
  intros H. unfold UPDATE_URI.
  assert (omap (updateUriOf oldUriFragment newUriFragment) (byContextPath st).*2
          = []) as ->; [|done].
  induction (byContextPath st) as [|[k n] m IH]; [done|]. csimpl.
  rewrite IH by (intros k' n' u Hin; apply (H k' n' u); by apply list_elem_of_further).
  assert (updateUriOf oldUriFragment newUriFragment n = None) as ->; [|done].
  unfold updateUriOf. destruct (uri n) as [u|] eqn:Hu; [|done].
  destruct (H k n u (list_elem_of_here _ _) Hu) as [H1 H2].
  apply not_includes_contains in H1, H2. rewrite H1, H2. by rewrite andb_false_r.
Qed.

Lemma UPDATE_URI_no_match_witness :
  UPDATE_URI "shop/boots" "shop/sneakers" (storeOf shop) = storeOf shop.
Proof.
  apply (UPDATE_URI_no_match "shop/boots" "shop/sneakers" (storeOf shop)).
  intros k n u Hin Hu. simpl in Hin.
  repeat (apply elem_of_cons in Hin as [[= -> ->]|Hin];
          [simpl in Hu; injection Hu as <-;
           split; by apply not_includes_contains|]).
  by apply elem_of_nil in Hin.
Defined.

Lemma replace_same pat s : plain pat = true → replace pat pat s = s.
Proof.
  intros Hp. destruct (splitAtFirst pat s) as [[before after]|] eqn:Hs.
  - rewrite (replace_plain _ _ _ _ _ Hp Hs). symmetry. by apply splitAtFirst_Some.
  - unfold replace. by rewrite Hs.
Qed.

(** X22: [UPDATE_URI] with the old fragment as the new one gives the store
    back, when the fragment has no dollar sign and the records with a
    uri carry their key in their [contextPath] field. *)
Theorem UPDATE_URI_same_fragment uriFragment st :
  plain uriFragment = true →
  NoDup (keys (byContextPath st)) →
  keyedByContextPath (byContextPath st) →
  UPDATE_URI uriFragment uriFragment st = st.
Proof.
  intros Hp Hnd Hkeyed. rewrite UPDATE_URI_kmap by done.
  rewrite kmap_id; [apply set_byContextPath_id|].
  intros k n _. unfold withUpdatedUri, rewrittenUri.
  destruct (uri n) as [u|] eqn:Hu; [|done].
  rewrite !replace_same by (by rewrite plain_app, Hp).
  case_match; [|done]. destruct n. simpl in *. by subst.
Qed.

Lemma UPDATE_URI_same_fragment_witness :
  plain "shop/shoes" = true
  ∧ NoDup (keys (byContextPath (storeOf shop)))
  ∧ keyedByContextPath (byContextPath (storeOf shop))
  ∧ UPDATE_URI "shop/shoes" "shop/shoes" (storeOf shop) = storeOf shop.
Proof.
  assert (NoDup (keys (byContextPath (storeOf shop)))) as Hnd by solve_NoDup.
  assert (keyedByContextPath (byContextPath (storeOf shop))) as Hkeyed.
  { unfold keyedByContextPath, storeOf, shop. simpl.
    repeat (apply Forall_cons; split; [by intros _|]). apply Forall_nil_2. }
  split; [reflexivity|]. split; [done|]. split; [done|].
  exact (UPDATE_URI_same_fragment "shop/shoes" (storeOf shop) eq_refl Hnd Hkeyed).
Defined.

(** ** The focus, the clipboard and the removal mark *)

(** X23: the actions on the focus, the clipboard and the removal mark, the
    confirmation of a removal among them, and [COMMENCE_CREATION]
    return a store with the same map of records, the same site node
    and the same document node. *)
Theorem bookkeeping_keeps_nodes parentNodeContextPath st a :
  bookkeeping a →
  ∃ st',
    reducer parentNodeContextPath st a = Ok st'
    ∧ byContextPath st' = byContextPath st
    ∧ siteNode st' = siteNode st
    ∧ contentCanvasContextPath st' = contentCanvasContextPath st.
Proof. intros Hkind. destruct a; try done; by eexists. Qed.

Lemma bookkeeping_keeps_nodes_witness :
  bookkeeping actions.confirmRemoval
  ∧ ∃ st',
      reducer sampleParent (COMMENCE_REMOVAL "A" (storeOf siblings))
        actions.confirmRemoval = Ok st'
      ∧ byContextPath st' = siblings.
Proof.
  split; [exact I|].
  destruct (bookkeeping_keeps_nodes sampleParent
              (COMMENCE_REMOVAL "A" (storeOf siblings)) actions.confirmRemoval I)
    as (st' & H1 & H2 & _).
  by exists st'.
Defined.

(** * The tree of nodes *)

Lemma forallb_false {A} (f : A → bool) (l : list A) :
  forallb f l = false ↔ ∃ x, x ∈ l ∧ f x = false.
Proof.
  induction l as [|a l IH]; simpl.
  - split; [done|]. intros (x & Hx & _). by apply elem_of_nil in Hx.
  - rewrite andb_false_iff, IH. split.
    + intros [Ha|(x & Hx & Hfx)].
      * exists a. split; [apply list_elem_of_here | done].
      * exists x. split; [by apply list_elem_of_further | done].
    + intros (x & [->|Hx]%elem_of_cons & Hfx); [by left|].
      right. by exists x.
Qed.

Lemma hasNestedNodes_true (l : list string) :
  hasNestedNodes l = true ↔
  ∃ A B, A ∈ l ∧ B ∈ l ∧ A ≠ B ∧ startsWith (pathOf A) B = true.
Proof.
  unfold hasNestedNodes. rewrite negb_true_iff, forallb_false. split.
  - intros (A & HA & (B & HB & HAB)%forallb_false).
    apply negb_false_iff, andb_true_iff in HAB as [Hs Hne].
    apply bool_decide_eq_true in Hne. by exists A, B.
  - intros (A & B & HA & HB & Hne & Hs). exists A. split; [done|].
    apply forallb_false. exists B. split; [done|].
    by rewrite Hs, bool_decide_eq_true_2.
Qed.

Lemma startsWith_prefix pat s :
  startsWith pat s = true ↔ ∃ rest, s = pat +:+ rest.
Proof.
  split.
  - intros H. eexists. by apply startsWith_split.
  - intros [rest ->]. apply startsWith_app.
Qed.

Lemma splitAtFirst_at path context :
  ¬ contains "@" path →
  splitAtFirst "@" (path +:+ "@" +:+ context) = Some (path, context).
Proof.
  induction path as [|c path IH]; intros Hno; [done|].
  assert (c ≠ "@"%char) as Hc.
  { intros ->. apply Hno. by exists "", path. }
  assert (¬ contains "@" path) as Hno'.
  { intros (before & after & ->). apply Hno. by exists (String c before), after. }
  rewrite append_String, splitAtFirst_unfold. simpl.
  rewrite bool_decide_eq_false_2 by congruence. simpl. by rewrite IH.
Qed.

(** X24: [hasNestedNodes] holds of a list of context paths exactly when two
    different context paths of the list are such that the one starts
    with the path of the other, the path being what stands before the
    first at sign. *)
Theorem hasNestedNodes_pairs (focusedNodesContextPaths : list string) :
  hasNestedNodes focusedNodesContextPaths = true ↔
  ∃ contextPathA contextPathB rest,
    contextPathA ∈ focusedNodesContextPaths
    ∧ contextPathB ∈ focusedNodesContextPaths
    ∧ contextPathA ≠ contextPathB
    ∧ contextPathB = pathOf contextPathA +:+ rest.
Proof.
  rewrite hasNestedNodes_true. split.
  - intros (A & B & HA & HB & Hne & [rest Hs]%startsWith_prefix).
    by exists A, B, rest.
  - intros (A & B & rest & HA & HB & Hne & Hs). exists A, B.
    repeat (split; [done|]). apply startsWith_prefix. by exists rest.
Qed.

(** X25: [hasNestedNodes] is false of a list in which all context paths are
    the same, so of the empty list and of a list of one. *)
Theorem hasNestedNodes_one_path (focusedNodesContextPaths : list string) :
  (∀ contextPathA contextPathB,
     contextPathA ∈ focusedNodesContextPaths →
     contextPathB ∈ focusedNodesContextPaths →
     contextPathA = contextPathB) →
  hasNestedNodes focusedNodesContextPaths = false.
Proof.
  intros Hsame. apply not_true_iff_false.
  intros (A & B & HA & HB & Hne & _)%hasNestedNodes_true.
  by apply Hne, Hsame.
Qed.

Lemma hasNestedNodes_one_path_witness :
  hasNestedNodes ["/sites/shop/shoes@live"] = false.
Proof.
  apply hasNestedNodes_one_path.
  intros A B ->%list_elem_of_singleton ->%list_elem_of_singleton. reflexivity.
Defined.

(** X26: focusing more context paths never makes a nested selection flat:
    [hasNestedNodes] of a list holds of every list that has all its
    context paths, in whatever order. *)
Theorem hasNestedNodes_monotone (l l' : list string) :
  (∀ contextPath, contextPath ∈ l → contextPath ∈ l') →
  hasNestedNodes l = true →
  hasNestedNodes l' = true.
Proof.
  intros Hsub (A & B & HA & HB & Hne & Hs)%hasNestedNodes_true.
  apply hasNestedNodes_true. exists A, B. auto.
Qed.

Lemma hasNestedNodes_monotone_witness :
  hasNestedNodes ["/sites/shop@live"; "/sites/shop/shoes@live"] = true
  ∧ hasNestedNodes ["/sites/shop/shoes@live"; "/sites/blog@live"; "/sites/shop@live"]
    = true.
Proof.
  assert (hasNestedNodes ["/sites/shop@live"; "/sites/shop/shoes@live"] = true)
    as H by reflexivity.
  split; [done|].
  apply (hasNestedNodes_monotone
           ["/sites/shop@live"; "/sites/shop/shoes@live"]
           ["/sites/shop/shoes@live"; "/sites/blog@live"; "/sites/shop@live"]);
    [|done].
  intros c Hc. apply (bool_decide_unpack _).
  repeat (apply elem_of_cons in Hc as [->|Hc]; [by vm_compute|]).
  by apply elem_of_nil in Hc.
Defined.

(** X27: a node and one of its descendants in the same context make a
    nested selection: [hasNestedNodes] holds of every list with a
    context path [path@context] and a context path that continues
    [path] with a slash. *)
Theorem hasNestedNodes_descendant path context rest (l : list string) :
  ¬ contains "@" path →
  (path +:+ "@" +:+ context) ∈ l →
  (path +:+ "/" +:+ rest) ∈ l →
  hasNestedNodes l = true.
Proof.
  intros Hno HA HB. apply hasNestedNodes_true.
  exists (path +:+ "@" +:+ context), (path +:+ "/" +:+ rest).
  split; [done|]. split; [done|]. split.
  - intros Heq. apply (inj (String.append path)) in Heq. discriminate Heq.
  - unfold pathOf. rewrite splitAtFirst_at by done. apply startsWith_app.
Qed.

Lemma hasNestedNodes_descendant_witness :
  ¬ contains "@" "/sites/shop"
  ∧ hasNestedNodes ["/sites/shop/shoes@live"; "/sites/shop@live"] = true.
Proof.
  assert (¬ contains "@" "/sites/shop") as Hno.
  { by apply not_includes_contains. }
  split; [done|].
  apply (hasNestedNodes_descendant "/sites/shop" "live" "shoes@live" _ Hno).
  - apply list_elem_of_further, list_elem_of_here.
  - apply list_elem_of_here.
Defined.
